(** * Utreexo test-data generator: encoding of outputs and block replay

    A shallow embedding of [scripts/data/generate_utreexo_data.py] and the
    properties its design document states about it.

    Python integers are unbounded, hence [Z].  A [bytes] object is a list of
    [Byte.byte]; a [str] is the list of its code points.  Exceptions are the
    [Raise] branch of [result]; code that also talks to the accumulator or
    to the hash runs in the monad [M], which threads the accumulator and
    the log of external calls and keeps both when an exception escapes. *)

From Stdlib Require Import Strings.String Strings.Ascii Strings.Byte.
From Stdlib Require Import ZArith NArith List Bool Lia.
Import ListNotations.
Open Scope Z_scope.

(** ** Exceptions *)

Inductive exn : Type :=
| ValueError               (* bytes.fromhex on a malformed string, byte range check *)
| OverflowError            (* int.to_bytes on a value that does not fit *)
| UnicodeEncodeError       (* str.encode on a lone surrogate *)
| StructuralInconsistency. (* the accumulator's delete on an absent leaf *)

Inductive result (A : Type) : Type :=
| Ok (a : A)
| Raise (e : exn).
Arguments Ok {A} a.
Arguments Raise {A} e.

Definition rbind {A B} (r : result A) (k : A -> result B) : result B :=
  match r with
  | Ok a => k a
  | Raise e => Raise e
  end.

Notation "'let?' x ':=' r 'in' k" := (rbind r (fun x => k))
  (at level 10, x pattern, r at level 100, k at level 200).

Fixpoint rmap {A B} (f : A -> result B) (l : list A) : result (list B) :=
  match l with
  | [] => Ok []
  | a :: l' => let? b := f a in let? bs := rmap f l' in Ok (b :: bs)
  end.

(** ** The Python built-ins the script relies on *)

Module Py.

Definition str : Type := list N.
Definition bytes : Type := list byte.

(** An ASCII literal as a [str]. *)
Definition lit (s : string) : str :=
  map N_of_ascii (list_ascii_of_string s).

Definition byte_val (b : byte) : Z := Z.of_N (Byte.to_N b).

Definition byte_of_N (n : N) : byte :=
  match Byte.of_N (n mod 256)%N with
  | Some b => b
  | None => x00
  end.

Definition byte_of_Z (z : Z) : byte := byte_of_N (Z.to_N (z mod 256)).

(** [s.startswith(prefix)] *)
Fixpoint startswith (s prefix : str) : bool :=
  match prefix, s with
  | [], _ => true
  | p :: prefix', c :: s' => N.eqb p c && startswith s' prefix'
  | _ :: _, [] => false
  end.

Definition is_space (c : N) : bool :=
  (N.eqb c 32 || ((9 <=? c) && (c <=? 13)))%N.

Definition hex_digit (c : N) : option N :=
  if ((48 <=? c) && (c <=? 57))%N then Some (c - 48)%N
  else if ((97 <=? c) && (c <=? 102))%N then Some (c - 87)%N
  else if ((65 <=? c) && (c <=? 70))%N then Some (c - 55)%N
  else None.

(** [bytes.fromhex(s)]: two hexadecimal digits per byte, ASCII white space
    allowed between bytes, anything else is a [ValueError]. *)
Fixpoint bytes_fromhex (s : str) : result bytes :=
  match s with
  | [] => Ok []
  | c :: s' =>
      if is_space c then bytes_fromhex s'
      else
        match hex_digit c, s' with
        | Some top, d :: s'' =>
            match hex_digit d with
            | Some bot =>
                let? rest := bytes_fromhex s'' in
                Ok (byte_of_N (top * 16 + bot) :: rest)
            | None => Raise ValueError
            end
        | _, _ => Raise ValueError
        end
  end.

Definition utf8_char (c : N) : result bytes :=
  (if c <? 0x80 then Ok [byte_of_N c]
   else if c <? 0x800 then
     Ok [byte_of_N (0xC0 + c / 0x40); byte_of_N (0x80 + c mod 0x40)]
   else if (0xD800 <=? c) && (c <=? 0xDFFF) then Raise UnicodeEncodeError
   else if c <? 0x10000 then
     Ok [byte_of_N (0xE0 + c / 0x1000);
         byte_of_N (0x80 + (c / 0x40) mod 0x40);
         byte_of_N (0x80 + c mod 0x40)]
   else
     Ok [byte_of_N (0xF0 + c / 0x40000);
         byte_of_N (0x80 + (c / 0x1000) mod 0x40);
         byte_of_N (0x80 + (c / 0x40) mod 0x40);
         byte_of_N (0x80 + c mod 0x40)])%N.

(** [s.encode("utf-8")] *)
Fixpoint encode_utf8 (s : str) : result bytes :=
  match s with
  | [] => Ok []
  | c :: s' =>
      let? b := utf8_char c in
      let? rest := encode_utf8 s' in
      Ok (b ++ rest)
  end.

(** [int.from_bytes(bs, "little")] *)
Fixpoint int_from_bytes_little (bs : bytes) : Z :=
  match bs with
  | [] => 0
  | b :: bs' => byte_val b + 256 * int_from_bytes_little bs'
  end.

(** [int.from_bytes(bs, "big")] *)
Definition int_from_bytes_big (bs : bytes) : Z :=
  fold_left (fun acc b => acc * 256 + byte_val b) bs 0.

(** The [length] low base-256 digits of [n], most significant first. *)
Fixpoint big_endian_digits (length : nat) (n : Z) : bytes :=
  match length with
  | O => []
  | S k => big_endian_digits k (n / 256) ++ [byte_of_Z n]
  end.

(** [n.to_bytes(length, byteorder="big")] (unsigned). *)
Definition int_to_bytes_big (n : Z) (length : nat) : result bytes :=
  if (n <? 0) || (256 ^ Z.of_nat length <=? n) then Raise OverflowError
  else Ok (big_endian_digits length n).

(** [int(b)] for a [bool]. *)
Definition int_of_bool (b : bool) : Z := if b then 1 else 0.

End Py.

(** ** The external collaborators *)

(** [poseidon_py.poseidon_hash.poseidon_hash_many]: a fixed function from
    field-element sequences to field elements. *)
Class Poseidon : Type := poseidon_hash_many : list Z -> Z.

(** Modelled from the spec: the node objects of the [utreexo] module, which
    is not part of the sources at hand.  The script only reads their [val]
    attribute, a hex string behind a two-character prefix. *)
Record UtreexoNode : Type := mk_node { val : Py.str }.

Definition format_node (node : UtreexoNode) : result Z :=
  let? b := Py.bytes_fromhex (skipn 2 (val node)) in
  Ok (Py.int_from_bytes_big b).

Record root_json : Type := mk_root { variant_id : Z; value : Z }.

Definition format_root_node (node : option UtreexoNode) : result (option root_json) :=
  match node with
  | Some node => let? v := format_node node in Ok (Some (mk_root 0 v))
  | None => Ok None
  end.

(** Modelled from the spec: the [Utreexo] class of the [utreexo] module,
    which is not part of the sources at hand.  The design document gives its
    interface only: [add] inserts a leaf and returns nothing; [delete]
    removes a leaf and returns its proof and position, or fails; the roots
    and the leaves can be read. *)
Class Utreexo : Type := {
  forest : Type;
  empty_forest : forest;
  root_nodes : forest -> list (option UtreexoNode);
  leaf_nodes_len : forest -> Z;
  add : forest -> Z -> forest;
  delete : forest -> Z -> option (list UtreexoNode * Z * forest)
}.

(** Modelled from the spec: what the design document promises of the
    accumulator, which is not part of the sources at hand.  [delete] fails
    when the leaf is not currently a member, and removing a leaf makes no
    other leaf a member; proof nodes and roots are field elements, so
    [format_node] reads them. *)
Class UtreexoLaws (U : Utreexo) : Type := {
  member : forest -> Z -> Prop;
  delete_absent : forall u leaf, ~ member u leaf -> delete u leaf = None;
  delete_shrinks : forall u leaf proof leaf_index u' leaf',
      delete u leaf = Some (proof, leaf_index, u') -> member u' leaf' -> member u leaf';
  delete_proof_readable : forall u leaf proof leaf_index u',
      delete u leaf = Some (proof, leaf_index, u') ->
      Forall (fun node => exists v, format_node node = Ok v) proof;
  root_nodes_readable : forall u node,
      In (Some node) (root_nodes u) -> exists v, format_node node = Ok v
}.

(** ** The replay monad *)

(** The calls that leave the script, in the order they are made. *)
Inductive event : Type :=
| Compress (elements : list Z)
| Delete (leaf : Z) (outcome : option (list UtreexoNode * Z))
| Add (leaf : Z).

Section Monad.
Context {P : Poseidon} {U : Utreexo}.

Record world : Type := mk_world {
  utreexo : forest;
  calls : list event
}.

Definition M (A : Type) : Type := world -> result A * world.

Definition mret {A} (a : A) : M A := fun w => (Ok a, w).

Definition mbind {A B} (m : M A) (k : A -> M B) : M B :=
  fun w =>
    match m w with
    | (Ok a, w') => k a w'
    | (Raise e, w') => (Raise e, w')
    end.

Definition lift {A} (r : result A) : M A := fun w => (r, w).

Definition call_poseidon (tab : list Z) : M Z :=
  fun w => (Ok (poseidon_hash_many tab),
            mk_world (utreexo w) (calls w ++ [Compress tab])).

Definition call_delete (leaf : Z) : M (list UtreexoNode * Z) :=
  fun w =>
    match delete (utreexo w) leaf with
    | Some (proof, leaf_index, u') =>
        (Ok (proof, leaf_index),
         mk_world u' (calls w ++ [Delete leaf (Some (proof, leaf_index))]))
    | None =>
        (Raise StructuralInconsistency,
         mk_world (utreexo w) (calls w ++ [Delete leaf None]))
    end.

Definition call_add (leaf : Z) : M unit :=
  fun w => (Ok tt, mk_world (add (utreexo w) leaf) (calls w ++ [Add leaf])).

Definition read_utreexo : M forest := fun w => (Ok (utreexo w), w).

End Monad.

Notation "x <- m ;; k" := (mbind m (fun x => k))
  (at level 61, m at next level, right associativity).
Notation "' pat <- m ;; k" := (mbind m (fun x => match x with pat => k end))
  (at level 61, pat pattern, m at next level, right associativity).

(** ** class TxOut *)

Module TxOut.

Record t : Type := mk {
  value : Z;
  pk_script : Py.str;
  cached : bool
}.

(** "Convert `pk_script` to bytes" *)
Definition script_bytes (pk_script : Py.str) : result Py.bytes :=
  if Py.startswith pk_script (Py.lit "0x") || Py.startswith pk_script (Py.lit "0X")
  then
    let hex_str := skipn 2 pk_script in
    Py.bytes_fromhex hex_str
  else Py.encode_utf8 pk_script.

(** The variables the packing loop updates. *)
Record pack_state : Type := mk_pack {
  sub_data : list Z;
  pending_word : Z;
  pending_word_len : Z
}.

Definition pack_init : pack_state := mk_pack [] 0 0.

(** One iteration of [for byte in byte_data]. *)
Definition pack_step (st : pack_state) (b : byte) : result pack_state :=
  let byte := Py.byte_val b in
  if negb ((0 <=? byte) && (byte <=? 255)) then Raise ValueError
  else if pending_word_len st =? 0 then
    Ok (mk_pack (sub_data st) byte 1)
  else
    let new_pending := pending_word st * 0x100 + byte in
    if pending_word_len st <? 31 - 1 then
      Ok (mk_pack (sub_data st) new_pending (pending_word_len st + 1))
    else
      let? new_pending_bytes := Py.int_to_bytes_big new_pending 31 in
      let word_int := Py.int_from_bytes_big new_pending_bytes in
      Ok (mk_pack (sub_data st ++ [word_int]) 0 0).

Fixpoint pack_loop (byte_data : Py.bytes) (st : pack_state) : result pack_state :=
  match byte_data with
  | [] => Ok st
  | b :: rest => let? st' := pack_step st b in pack_loop rest st'
  end.

Definition serialize (self : t) : result (list Z) :=
  let res := [value self] in
  let? byte_data := script_bytes (pk_script self) in
  let? st := pack_loop byte_data pack_init in
  let data := [Z.of_nat (List.length (sub_data st))] in
  let data := data ++ sub_data st in
  let data := if pending_word_len st >? 0 then data ++ [pending_word st] else data in
  let data := data ++ [pending_word_len st] in
  let res := res ++ data in
  Ok (res ++ [if cached self then 1 else 0]).

End TxOut.

(** ** class OutPoint *)

Module OutPoint.

Record t : Type := mk {
  txid : Py.str;
  vout : Z;
  data : TxOut.t;
  block_height : Z;
  block_time : Z;
  block_hash : Py.str;
  is_coinbase : bool
}.

(** The list [tab] that [hash] builds before it calls the hash. *)
Definition hash_tab (self : t) : result (list Z) :=
  let tab := [] in
  let? txid_bytes := Py.bytes_fromhex (txid self) in
  let tab := tab ++ [Py.int_from_bytes_little (firstn 16 txid_bytes)] in
  let tab := tab ++ [Py.int_from_bytes_little (skipn 16 txid_bytes)] in
  let tab := tab ++ [vout self] in
  let? prev_output := TxOut.serialize (data self) in
  let tab := tab ++ prev_output in
  let? txid_bytes := Py.bytes_fromhex (block_hash self) in
  let tab := tab ++ [Py.int_from_bytes_little (firstn 16 txid_bytes)] in
  let tab := tab ++ [Py.int_from_bytes_little (skipn 16 txid_bytes)] in
  let tab := tab ++ [block_height self] in
  let tab := tab ++ [block_time self] in
  let tab := tab ++ [Py.int_of_bool (is_coinbase self)] in
  Ok tab.

Definition hash {P : Poseidon} {U : Utreexo} (self : t) : M Z :=
  tab <- lift (hash_tab self) ;;
  hash <- call_poseidon tab ;;
  mret hash.

End OutPoint.

(** ** The block data read by the script *)

Module Json.

Record output : Type := mk_output {
  value : Z;
  pk_script : Py.str;
  cached : bool
}.

Record outpoint : Type := mk_outpoint {
  txid : Py.str;
  vout : Z;
  data : output;
  block_height : Z;
  block_time : Z;
  block_hash : Py.str;
  is_coinbase : bool
}.

Record input : Type := mk_input { previous_output : outpoint }.

Record tx : Type := mk_tx {
  inputs : list input;
  outputs : list output
}.

End Json.

Module Block.
(** [data] is a dict: its items in insertion order. *)
Record t : Type := mk {
  hash : Py.str;
  height : Z;
  time : Z;
  data : list (Py.str * Json.tx)
}.
End Block.

(** ** class UtreexoData *)

Module UtreexoData.

Record snapshot : Type := mk_snapshot {
  roots : list (option root_json);
  num_leaves : Z
}.

Record proof_json : Type := mk_proof {
  proof : list Z;
  leaf_index : Z
}.

(** The dict [apply_blocks] returns; [state = None] stands for [{}]. *)
Record report : Type := mk_report {
  state : option snapshot;
  proofs : list proof_json;
  expected : snapshot
}.

Section Methods.
Context {P : Poseidon} {U : Utreexo}.

Definition snapshot_state : M snapshot :=
  u <- read_utreexo ;;
  roots <- lift (rmap format_root_node (root_nodes u)) ;;
  mret (mk_snapshot roots (leaf_nodes_len u)).

(** The body of [for input in inputs], with the list [proofs] built so far. *)
Fixpoint handle_txin_loop (inputs : list Json.input) (proofs : list proof_json)
  : M (list proof_json) :=
  match inputs with
  | [] => mret proofs
  | input :: inputs' =>
      let outpoint := Json.previous_output input in
      if Json.cached (Json.data outpoint) then handle_txin_loop inputs' proofs
      else
        let outpoint :=
          OutPoint.mk
            (Json.txid outpoint)
            (Json.vout outpoint)
            (TxOut.mk
               (Json.value (Json.data outpoint))
               (Json.pk_script (Json.data outpoint))
               (Json.cached (Json.data outpoint)))
            (Json.block_height outpoint)
            (Json.block_time outpoint)
            (Json.block_hash outpoint)
            (Json.is_coinbase outpoint) in
        leaf <- OutPoint.hash outpoint ;;
        ' (proof, leaf_index) <- call_delete leaf ;;
        formatted <- lift (rmap format_node proof) ;;
        handle_txin_loop inputs' (proofs ++ [mk_proof formatted leaf_index])
  end.

Definition handle_txin (inputs : list Json.input) : M (list proof_json) :=
  handle_txin_loop inputs [].

(** [for i, output in enumerate(outputs)], from index [i] on. *)
Fixpoint handle_txout_loop (i : Z) (outputs : list Json.output)
    (block_hash : Py.str) (block_height block_time : Z)
    (txid : Py.str) (is_coinbase : bool) : M unit :=
  match outputs with
  | [] => mret tt
  | output :: outputs' =>
      if Json.cached output then
        handle_txout_loop (i + 1) outputs' block_hash block_height block_time txid is_coinbase
      else
        let new_outpoint :=
          OutPoint.mk
            txid
            i
            (TxOut.mk (Json.value output) (Json.pk_script output) (Json.cached output))
            block_height
            block_time
            block_hash
            is_coinbase in
        leaf <- OutPoint.hash new_outpoint ;;
        _ <- call_add leaf ;;
        handle_txout_loop (i + 1) outputs' block_hash block_height block_time txid is_coinbase
  end.

Definition handle_txout (outputs : list Json.output)
    (block_hash : Py.str) (block_height block_time : Z)
    (txid : Py.str) (is_coinbase : bool) : M unit :=
  handle_txout_loop 0 outputs block_hash block_height block_time txid is_coinbase.

(** "First we remove all STXOs": the first inner loop of [apply_blocks],
    from transaction index [i] on. *)
Fixpoint remove_stxos (len_blocks block_idx : Z) (i : Z)
    (items : list (Py.str * Json.tx)) (proofs : list proof_json)
  : M (list proof_json) :=
  match items with
  | [] => mret proofs
  | (txid, tx) :: items' =>
      if negb (i =? 0) then
        inc_proofs <- handle_txin (Json.inputs tx) ;;
        let proofs :=
          if block_idx =? len_blocks - 1 then proofs ++ inc_proofs else proofs in
        remove_stxos len_blocks block_idx (i + 1) items' proofs
      else remove_stxos len_blocks block_idx (i + 1) items' proofs
  end.

(** "Then we add all new UTXOs": the second inner loop. *)
Fixpoint add_utxos (block : Block.t) (i : Z) (items : list (Py.str * Json.tx))
  : M unit :=
  match items with
  | [] => mret tt
  | (txid, tx) :: items' =>
      _ <- handle_txout (Json.outputs tx) (Block.hash block) (Block.height block)
             (Block.time block) txid (i =? 0) ;;
      add_utxos block (i + 1) items'
  end.

(** One iteration of [for block_idx, block in enumerate(blocks)]. *)
Definition block_body (len_blocks block_idx : Z) (block : Block.t)
    (state : option snapshot) (proofs : list proof_json)
  : M (option snapshot * list proof_json) :=
  state <- (if block_idx =? len_blocks - 1
            then s <- snapshot_state ;; mret (Some s)
            else mret state) ;;
  proofs <- remove_stxos len_blocks block_idx 0 (Block.data block) proofs ;;
  _ <- add_utxos block 0 (Block.data block) ;;
  mret (state, proofs).

Fixpoint blocks_loop (len_blocks block_idx : Z) (blocks : list Block.t)
    (state : option snapshot) (proofs : list proof_json)
  : M (option snapshot * list proof_json) :=
  match blocks with
  | [] => mret (state, proofs)
  | block :: blocks' =>
      ' (state, proofs) <- block_body len_blocks block_idx block state proofs ;;
      blocks_loop len_blocks (block_idx + 1) blocks' state proofs
  end.

Definition apply_blocks (blocks : list Block.t) : M report :=
  let state := None in
  let proofs := [] in
  ' (state, proofs) <-
    blocks_loop (Z.of_nat (List.length blocks)) 0 blocks state proofs ;;
  expected <- snapshot_state ;;
  mret (mk_report state proofs expected).

End Methods.

End UtreexoData.

(** * The vocabulary of the properties *)

Section PackingVocabulary.
Import Py TxOut.

(** [st] is what the loop holds after reading [read]: the completed words
    are the full 31-byte groups of [read], the pending word the bytes left
    over, each read as a big-endian integer. *)
Definition packs (read : bytes) (st : pack_state) : Prop :=
  exists (groups : list bytes) (left_over : bytes),
    read = concat groups ++ left_over /\
    Forall (fun g => List.length g = 31%nat) groups /\
    (List.length left_over <= 30)%nat /\
    sub_data st = map int_from_bytes_big groups /\
    pending_word st = int_from_bytes_big left_over /\
    pending_word_len st = Z.of_nat (List.length left_over).

(** The inverse of the packing: each completed word back to its 31
    bytes, the pending word cut to [pending_word_len] bytes. *)
Definition unpack (st : pack_state) : bytes :=
  flat_map (big_endian_digits 31) (sub_data st)
  ++ big_endian_digits (Z.to_nat (pending_word_len st)) (pending_word st).

(** The bytes [first], ..., [first + count - 1] of [bs] read as a
    little-endian integer: byte [first + k] weighs [256 ^ k]. *)
Definition little_endian_value (bs : bytes) (first count : nat) : Z :=
  fold_right Z.add 0
    (map (fun k => byte_val (nth (first + k) bs x00) * 256 ^ Z.of_nat k) (seq 0 count)).

End PackingVocabulary.

(** A block all of whose referenced and created outputs are cached. *)
Definition tx_all_cached (tx : Json.tx) : bool :=
  forallb (fun input => Json.cached (Json.data (Json.previous_output input))) (Json.inputs tx)
  && forallb Json.cached (Json.outputs tx).

Definition block_all_cached (block : Block.t) : bool :=
  forallb (fun item => tx_all_cached (snd item)) (Block.data block).

Definition no_add (e : event) : Prop :=
  match e with Add _ => False | _ => True end.

Definition no_delete (e : event) : Prop :=
  match e with Delete _ _ => False | _ => True end.

(** What the successful [delete] calls of a log returned, in order. *)
Fixpoint removals (seg : list event) : list (list UtreexoNode * Z) :=
  match seg with
  | [] => []
  | Delete _ (Some outcome) :: seg' => outcome :: removals seg'
  | _ :: seg' => removals seg'
  end.

(** The entry [handle_txin] appends for one successful [delete]. *)
Definition format_proof (outcome : list UtreexoNode * Z) : result UtreexoData.proof_json :=
  let? formatted := rmap format_node (fst outcome) in
  Ok (UtreexoData.mk_proof formatted (snd outcome)).

(** The OutPoint [handle_txin] builds for a referenced output. *)
Definition spent_outpoint (outpoint : Json.outpoint) : OutPoint.t :=
  OutPoint.mk
    (Json.txid outpoint)
    (Json.vout outpoint)
    (TxOut.mk
       (Json.value (Json.data outpoint))
       (Json.pk_script (Json.data outpoint))
       (Json.cached (Json.data outpoint)))
    (Json.block_height outpoint)
    (Json.block_time outpoint)
    (Json.block_hash outpoint)
    (Json.is_coinbase outpoint).

(** The OutPoint [handle_txout] builds for output [vout] of the transaction
    at position [i] of [block]. *)
Definition created_outpoint (block : Block.t) (i : Z) (txid : Py.str) (vout : Z)
    (output : Json.output) : OutPoint.t :=
  OutPoint.mk
    txid
    vout
    (TxOut.mk (Json.value output) (Json.pk_script output) (Json.cached output))
    (Block.height block)
    (Block.time block)
    (Block.hash block)
    (i =? 0).

(** Every non-cached output referenced by [inputs] has well-formed hex
    strings and a script that converts to bytes. *)
Definition inputs_readable (inputs : list Json.input) : bool :=
  forallb
    (fun input =>
       Json.cached (Json.data (Json.previous_output input))
       || match OutPoint.hash_tab (spent_outpoint (Json.previous_output input)) with
          | Ok _ => true
          | Raise _ => false
          end)
    inputs.

(** The same, for the inputs of all transactions of a block but the first. *)
Definition block_inputs_readable (block : Block.t) : bool :=
  forallb (fun item => inputs_readable (Json.inputs (snd item))) (tl (Block.data block)).

(** A transaction of [block] has an input that references the non-cached
    output [outpoint] created by an earlier transaction of the same block. *)
Definition same_block_spend (block : Block.t) (outpoint : OutPoint.t) : Prop :=
  exists before txid1 tx1 between txid2 tx2 after (vout : nat) output input,
    Block.data block = before ++ (txid1, tx1) :: between ++ (txid2, tx2) :: after /\
    nth_error (Json.outputs tx1) vout = Some output /\
    Json.cached output = false /\
    outpoint
    = created_outpoint block (Z.of_nat (List.length before)) txid1 (Z.of_nat vout) output /\
    In input (Json.inputs tx2) /\
    spent_outpoint (Json.previous_output input) = outpoint.

Section LogVocabulary.
Context {P : Poseidon} {U : Utreexo}.
Import UtreexoData.

(** [leaf] is the hash of an OutPoint whose TxOut is not cached, and the
    call that computed it is in [seg]. *)
Definition uncached_leaf (leaf : Z) (seg : list event) : Prop :=
  exists (outpoint : OutPoint.t) (tab : list Z),
    TxOut.cached (OutPoint.data outpoint) = false /\
    OutPoint.hash_tab outpoint = Ok tab /\
    leaf = poseidon_hash_many tab /\
    In (Compress tab) seg.

Definition leaves_uncached (seg : list event) : Prop :=
  forall e, In e seg ->
    match e with
    | Add leaf | Delete leaf _ => uncached_leaf leaf seg
    | Compress _ => True
    end.

(** What a computation leaves in the log, and in which state. *)
Definition logs {A} (m : M A) (w : world)
    (Q : result A -> world -> list event -> Prop) : Prop :=
  exists seg, calls (snd (m w)) = calls w ++ seg /\ Q (fst (m w)) (snd (m w)) seg.

Definition txin_post (proofs : list proof_json)
    (r : result (list proof_json)) (w' : world) (seg : list event) : Prop :=
  Forall no_add seg /\
  leaves_uncached seg /\
  match r with
  | Ok proofs' =>
      exists new, proofs' = proofs ++ new /\ rmap format_proof (removals seg) = Ok new
  | Raise _ => True
  end.

Definition txout_post (r : result unit) (w' : world) (seg : list event) : Prop :=
  Forall no_delete seg /\ leaves_uncached seg.

Definition stxos_post (last : bool) (proofs : list proof_json)
    (r : result (list proof_json)) (w' : world) (seg : list event) : Prop :=
  Forall no_add seg /\
  leaves_uncached seg /\
  match r with
  | Ok proofs' =>
      if last
      then exists new,
          proofs' = proofs ++ new /\ rmap format_proof (removals seg) = Ok new
      else proofs' = proofs
  | Raise _ => True
  end.

Definition body_post (len_blocks block_idx : Z) (state : option snapshot)
    (proofs : list proof_json) (w : world)
    (r : result (option snapshot * list proof_json)) (w' : world)
    (seg : list event) : Prop :=
  (exists removes inserts,
      seg = removes ++ inserts /\ Forall no_add removes /\ Forall no_delete inserts) /\
  leaves_uncached seg /\
  match r with
  | Ok (state', proofs') =>
      if block_idx =? len_blocks - 1
      then exists s new,
          snapshot_state w = (Ok s, w) /\ state' = Some s /\
          proofs' = proofs ++ new /\ rmap format_proof (removals seg) = Ok new
      else state' = state /\ proofs' = proofs
  | Raise _ => True
  end.

Definition spends (inputs : list Json.input) (leaf : Z) : Prop :=
  exists input tab,
    In input inputs /\
    Json.cached (Json.data (Json.previous_output input)) = false /\
    OutPoint.hash_tab (spent_outpoint (Json.previous_output input)) = Ok tab /\
    poseidon_hash_many tab = leaf.

End LogVocabulary.

(** * A list-backed accumulator, a toy hash and sample blocks

    Every leaf is its own root, so a leaf is a member exactly when it is in
    the list; [list_delete] takes out the first occurrence and reports its
    position, with the leaves that stay as the proof. *)

Module ListForest.

Definition hex_char (n : N) : N := (if n <? 10 then 48 + n else 87 + n)%N.

Definition hex_of_byte (b : byte) : Py.str :=
  let n := Byte.to_N b in [hex_char (n / 16); hex_char (n mod 16)].

Definition hex_of_bytes (bs : Py.bytes) : Py.str := flat_map hex_of_byte bs.

Definition node_of (v : Z) : UtreexoNode :=
  mk_node (Py.lit "0x" ++ hex_of_bytes (Py.big_endian_digits 32 v)).

Fixpoint delete_first (u : list Z) (leaf : Z) (i : Z) : option (Z * list Z) :=
  match u with
  | [] => None
  | x :: u' =>
      if x =? leaf then Some (i, u')
      else
        match delete_first u' leaf (i + 1) with
        | Some (j, u'') => Some (j, x :: u'')
        | None => None
        end
  end.

Definition list_delete (u : list Z) (leaf : Z)
  : option (list UtreexoNode * Z * list Z) :=
  match delete_first u leaf 0 with
  | Some (i, u') => Some (map node_of u', i, u')
  | None => None
  end.

Definition poseidon : Poseidon :=
  fun tab => fold_left (fun h x => (h * 1000003 + x) mod 2305843009213693951) tab 7.

End ListForest.

Module Scenario.

Definition block_hash_1 : Py.str :=
  Py.lit "00000000839a8e6886ab5951d76f411475428afc90947ee320161bbf18eb6048".
Definition block_hash_2 : Py.str :=
  Py.lit "000000006a625f06636b8bb6ac7b960a8d03705d1ace08b1a19da3fdcc99ddbd".
Definition txid_1 : Py.str :=
  Py.lit "0e3e2357e806b6cdb1f70b54c3a3a17b6714ee1f0e68bebb44a74b1efd512098".
Definition txid_2 : Py.str :=
  Py.lit "9b0fc92260312ce44e74ef369f5c66bbb85848f2eddd5a7a1cde251e54ccfdd5".
Definition txid_3 : Py.str :=
  Py.lit "999e1c837c76a1b7fbb7e57baf87b309960f5ffefbf2a9b95dd890602272f644".

(** value = 5000000000, script = five zero bytes, not cached *)
Definition output_1 : Json.output :=
  Json.mk_output 5000000000 (Py.lit "0x0000000000") false.

Definition cached_output : Json.output :=
  Json.mk_output 5000000000 (Py.lit "0x76a914") true.

(** The output of the coinbase transaction of block 1, as an input sees it. *)
Definition outpoint_1 : Json.outpoint :=
  Json.mk_outpoint txid_1 0 output_1 1 1231469665 block_hash_1 true.

Definition coinbase_1 : Json.tx := Json.mk_tx [] [output_1].
Definition spend_1 : Json.tx := Json.mk_tx [Json.mk_input outpoint_1] [].

(** One block, one coinbase transaction, one output. *)
Definition block_1 : Block.t :=
  Block.mk block_hash_1 1 1231469665 [(txid_1, coinbase_1)].

(** The next block spends that output and creates nothing. *)
Definition block_2 : Block.t :=
  Block.mk block_hash_2 2 1231469744 [(txid_2, Json.mk_tx [] []); (txid_3, spend_1)].

(** Block 1 with a second transaction that spends the output of the first. *)
Definition block_1_spent : Block.t :=
  Block.mk block_hash_1 1 1231469665 [(txid_1, coinbase_1); (txid_3, spend_1)].

(** An earlier block, whose output stays unspent. *)
Definition block_0 : Block.t :=
  Block.mk
    (Py.lit "000000000019d6689c085ae165831e934ff763ae46a2a6c172b3f1b60a8ce26f")
    0 1231006505
    [(Py.lit "4a5e1e4baab89f3a32518a88c31bc87f618f76673e2cc77ab2127b7afdeda33b",
      Json.mk_tx [] [Json.mk_output 5000000000 (Py.lit "0x4104678afdb0") false])].

(** A block whose outputs, created and referenced, are all cached. *)
Definition block_cached : Block.t :=
  Block.mk block_hash_2 2 1231469744
    [(txid_2, Json.mk_tx [] [cached_output]);
     (txid_3,
      Json.mk_tx
        [Json.mk_input
           (Json.mk_outpoint txid_1 0 cached_output 1 1231469665 block_hash_1 true)]
        [cached_output])].

Definition bytes_of_hex (s : Py.str) : Py.bytes :=
  match Py.bytes_fromhex s with
  | Ok b => b
  | Raise _ => []
  end.

Definition value_of {A} (r : result A) : option A :=
  match r with
  | Ok a => Some a
  | Raise _ => None
  end.

End Scenario.

(** * Properties *)

(** ** Bytes and integers *)

Section Bytes.
Import Py.

Lemma byte_val_range (b : byte) : 0 <= byte_val b < 256.
Proof.
  unfold byte_val. pose proof (Byte.to_N_bounded b). lia.
Qed.

Lemma byte_of_N_to_N (b : byte) : byte_of_N (Byte.to_N b) = b.
Proof.
  unfold byte_of_N. pose proof (Byte.to_N_bounded b).
  rewrite N.mod_small by lia. now rewrite Byte.of_to_N.
Qed.

Lemma byte_of_Z_shift (hi : Z) (b : byte) : byte_of_Z (hi * 256 + byte_val b) = b.
Proof.
  unfold byte_of_Z. pose proof (byte_val_range b).
  rewrite Z.add_comm, Z.mod_add, Z.mod_small by lia.
  unfold byte_val. rewrite N2Z.id. apply byte_of_N_to_N.
Qed.

Lemma int_from_bytes_big_snoc (bs : bytes) (b : byte) :
  int_from_bytes_big (bs ++ [b]) = int_from_bytes_big bs * 256 + byte_val b.
Proof.
  unfold int_from_bytes_big. now rewrite fold_left_app.
Qed.

Lemma int_from_bytes_big_range (bs : bytes) :
  0 <= int_from_bytes_big bs < 256 ^ Z.of_nat (List.length bs).
Proof.
  induction bs as [|b bs IH] using rev_ind.
  - cbn. lia.
  - rewrite int_from_bytes_big_snoc, length_app, Nat2Z.inj_add.
    cbn [List.length]. rewrite Z.pow_add_r by lia.
    change (256 ^ Z.of_nat 1) with 256.
    pose proof (byte_val_range b). nia.
Qed.

Lemma big_endian_digits_from_bytes (bs : bytes) :
  big_endian_digits (List.length bs) (int_from_bytes_big bs) = bs.
Proof.
  induction bs as [|b bs IH] using rev_ind; [reflexivity|].
  rewrite length_app, Nat.add_comm. cbn [List.length Nat.add big_endian_digits].
  rewrite int_from_bytes_big_snoc, byte_of_Z_shift.
  pose proof (byte_val_range b).
  replace ((int_from_bytes_big bs * 256 + byte_val b) / 256)
    with (int_from_bytes_big bs).
  - now rewrite IH.
  - rewrite Z.add_comm, Z.div_add, Z.div_small by lia. lia.
Qed.

Lemma byte_val_of_Z (n : Z) : byte_val (byte_of_Z n) = n mod 256.
Proof.
  unfold byte_of_Z, byte_of_N, byte_val.
  pose proof (Z.mod_pos_bound n 256 ltac:(lia)) as Hm.
  assert (Hs : (Z.to_N (n mod 256) mod 256 = Z.to_N (n mod 256))%N)
    by (apply N.mod_small; lia).
  rewrite Hs.
  destruct (Byte.of_N (Z.to_N (n mod 256))) as [b|] eqn:E.
  - apply Byte.to_of_N in E. rewrite E. lia.
  - apply Byte.of_N_None_iff in E. lia.
Qed.

Lemma int_from_big_endian_digits (k : nat) (n : Z) :
  0 <= n < 256 ^ Z.of_nat k ->
  int_from_bytes_big (big_endian_digits k n) = n.
Proof.
  revert n. induction k as [|k IH]; intros n Hn.
  - cbn in *. lia.
  - cbn [big_endian_digits]. rewrite int_from_bytes_big_snoc, byte_val_of_Z.
    rewrite IH.
    + pose proof (Z.div_mod n 256 ltac:(lia)). lia.
    + rewrite Nat2Z.inj_succ, Z.pow_succ_r in Hn by lia.
      split; [apply Z.div_pos; lia|].
      apply Z.div_lt_upper_bound; lia.
Qed.

Lemma big_endian_digits_length (k : nat) (n : Z) :
  List.length (big_endian_digits k n) = k.
Proof.
  revert n. induction k as [|k IH]; intro n; [reflexivity|].
  cbn [big_endian_digits]. rewrite length_app, IH. cbn. lia.
Qed.

End Bytes.

(** ** The packing loop of [TxOut.serialize] *)

Section Packing.
Import Py TxOut.

Lemma packs_init : packs [] pack_init.
Proof.
  exists [], []. cbn. repeat split; auto. lia.
Qed.

Lemma pack_step_packs (read : bytes) (st : pack_state) (b : byte) :
  packs read st ->
  exists st', pack_step st b = Ok st' /\ packs (read ++ [b]) st'.
Proof.
  intros (groups & left_over & Hread & Hgroups & Hlen & Hsub & Hword & Hwlen).
  unfold pack_step. pose proof (byte_val_range b) as Hb.
  replace (negb ((0 <=? byte_val b) && (byte_val b <=? 255))) with false
    by (symmetry; apply negb_false_iff, andb_true_iff; split; apply Z.leb_le; lia).
  destruct (Z.eqb_spec (pending_word_len st) 0) as [Hz|Hnz].
  - (* first byte of a word *)
    assert (left_over = []) by (destruct left_over; [easy|cbn in *; lia]).
    subst left_over. eexists; split; [reflexivity|].
    exists groups, [b]. cbn. repeat split; auto; try lia.
    now rewrite Hread, <- app_assoc.
  - destruct (Z.ltb_spec (pending_word_len st) (31 - 1)) as [Hlt|Hge].
    + (* the word grows *)
      eexists; split; [reflexivity|].
      exists groups, (left_over ++ [b]). cbn.
      rewrite length_app, int_from_bytes_big_snoc. cbn [List.length].
      repeat split; auto; try lia; try (now rewrite Hword).
      now rewrite Hread, <- app_assoc.
    + (* the 31st byte completes the word *)
      assert (Hfull : List.length (left_over ++ [b]) = 31%nat)
        by (rewrite length_app; cbn; lia).
      pose proof (int_from_bytes_big_range (left_over ++ [b])) as Hr.
      rewrite Hfull, int_from_bytes_big_snoc, <- Hword in Hr.
      unfold int_to_bytes_big.
      change 0x100 with 256.
      replace ((pending_word st * 256 + byte_val b <? 0)
               || (256 ^ Z.of_nat 31 <=? pending_word st * 256 + byte_val b))
        with false
        by (symmetry; apply orb_false_iff; split;
            [apply Z.ltb_ge|apply Z.leb_gt]; lia).
      cbn [rbind]. eexists; split; [reflexivity|].
      exists (groups ++ [left_over ++ [b]]), []. cbn -[big_endian_digits Z.mul].
      repeat split; auto.
      * rewrite concat_app. cbn. rewrite Hread, !app_nil_r, <- app_assoc. reflexivity.
      * apply Forall_app; split; auto.
      * lia.
      * rewrite map_app, Hsub. cbn [map]. f_equal. f_equal.
        rewrite int_from_big_endian_digits by exact Hr.
        now rewrite int_from_bytes_big_snoc, Hword.
Qed.

Lemma pack_loop_packs (byte_data read : bytes) (st : pack_state) :
  packs read st ->
  exists st', pack_loop byte_data st = Ok st' /\ packs (read ++ byte_data) st'.
Proof.
  revert read st. induction byte_data as [|b rest IH]; intros read st Hst.
  - exists st. rewrite app_nil_r. now split.
  - destruct (pack_step_packs read st b Hst) as (st1 & Hstep & Hst1).
    destruct (IH _ _ Hst1) as (st' & Hloop & Hst').
    exists st'. cbn. rewrite Hstep. cbn. split; [exact Hloop|].
    now rewrite <- app_assoc in Hst'.
Qed.

(** The loop never raises, and its result is the split of the script into
    31-byte groups. *)
Lemma pack_loop_total (byte_data : bytes) :
  exists st, pack_loop byte_data pack_init = Ok st /\ packs byte_data st.
Proof.
  exact (pack_loop_packs byte_data [] pack_init packs_init).
Qed.

End Packing.

Section PackingClaims.
Import Py TxOut.

Lemma packs_length (read : bytes) (st : pack_state) :
  packs read st ->
  Z.of_nat (List.length read)
  = 31 * Z.of_nat (List.length (sub_data st)) + pending_word_len st
  /\ 0 <= pending_word_len st <= 30.
Proof.
  intros (groups & left_over & -> & Hgroups & Hlen & -> & _ & ->).
  rewrite length_app, length_map, Nat2Z.inj_add. split; [|lia].
  f_equal. clear Hlen. induction Hgroups as [|g groups Hg _ IH]; [reflexivity|].
  cbn [concat List.length]. rewrite length_app, Hg. lia.
Qed.

(** C1, as the claim words it, fails: thirty-one bytes are merged into
    one completed word, and the word made of the byte 1 followed by thirty
    zero bytes is exactly 2^(30*8). *)
Lemma C1_thirty_byte_bound_fails :
  exists st,
    pack_loop (x01 :: repeat x00 30) pack_init = Ok st /\
    ~ Forall (fun word => word < 2 ^ (30 * 8)) (sub_data st).
Proof.
  eexists. split; [vm_compute; reflexivity|].
  cbn [sub_data]. intro H. inversion H as [|word words Hword _]; subst.
  vm_compute in Hword. discriminate.
Qed.

(** C1, amended: for every locking-script byte string the packing loop
    ends without an error, every completed word is below 2^(31*8) (a
    completed word groups 31 bytes: the flush happens when the 31st byte
    is merged), and the pending word holds at most 30 bytes. *)
Theorem C1_words_fit_31_bytes (byte_data : bytes) :
  exists st,
    pack_loop byte_data pack_init = Ok st /\
    Forall (fun word => 0 <= word < 2 ^ (31 * 8)) (sub_data st) /\
    0 <= pending_word_len st <= 30 /\
    0 <= pending_word st < 2 ^ (8 * pending_word_len st).
Proof.
  destruct (pack_loop_total byte_data) as (st & Hrun & Hst).
  exists st. split; [exact Hrun|].
  destruct Hst as (groups & left_over & _ & Hgroups & Hlen & -> & -> & ->).
  repeat split; try lia.
  - apply Forall_map. eapply Forall_impl; [|exact Hgroups].
    intros g Hg. cbn beta in *.
    pose proof (int_from_bytes_big_range g) as Hr. rewrite Hg in Hr.
    change (2 ^ (31 * 8)) with (256 ^ Z.of_nat 31). exact Hr.
  - apply int_from_bytes_big_range.
  - pose proof (int_from_bytes_big_range left_over) as Hr.
    replace (2 ^ (8 * Z.of_nat (List.length left_over)))
      with (256 ^ Z.of_nat (List.length left_over)); [apply Hr|].
    change 256 with (2 ^ 8). rewrite <- Z.pow_mul_r by lia. reflexivity.
Qed.

(** C9: for every byte string the packing loop ends without an error,
    and putting its words back to bytes (31 per completed word, the tail
    word cut to the tail length) and concatenating them in output order
    gives the byte string back. *)
Theorem C9_packing_round_trip (byte_data : bytes) :
  exists st, pack_loop byte_data pack_init = Ok st /\ unpack st = byte_data.
Proof.
  destruct (pack_loop_total byte_data) as (st & Hrun & Hst).
  exists st. split; [exact Hrun|].
  destruct Hst as (groups & left_over & -> & Hgroups & _ & Hsub & Hword & Hwlen).
  unfold unpack. rewrite Hsub, Hword, Hwlen, Nat2Z.id, big_endian_digits_from_bytes.
  f_equal. clear Hsub Hrun.
  induction Hgroups as [|g groups Hg _ IH]; [reflexivity|].
  cbn [map flat_map concat]. rewrite IH, <- Hg, big_endian_digits_from_bytes.
  reflexivity.
Qed.

(** C2: whenever the script of a TxOut converts to bytes, [serialize]
    returns the value, the number of completed words, the completed words
    in order, the pending word when its length is positive, that length,
    and the cached flag as 0 or 1, in this order; an empty script gives
    [value, 0, 0, flag]. *)
Theorem C2_serialize_layout (self : TxOut.t) (byte_data : bytes) :
  script_bytes (pk_script self) = Ok byte_data ->
  exists words tail_word tail_len,
    pack_loop byte_data pack_init = Ok (mk_pack words tail_word tail_len) /\
    Z.of_nat (List.length byte_data) = 31 * Z.of_nat (List.length words) + tail_len /\
    0 <= tail_len <= 30 /\
    serialize self
    = Ok ([value self; Z.of_nat (List.length words)]
          ++ words
          ++ (if 0 <? tail_len then [tail_word] else [])
          ++ [tail_len; if cached self then 1 else 0]) /\
    (byte_data = [] ->
     serialize self = Ok [value self; 0; 0; if cached self then 1 else 0]).
Proof.
  intro Hscript.
  destruct (pack_loop_total byte_data) as ([words tail_word tail_len] & Hrun & Hst).
  exists words, tail_word, tail_len.
  destruct (packs_length _ _ Hst) as [Hlen Htail]. cbn [sub_data pending_word_len] in *.
  assert (Hser : serialize self
    = Ok ([value self; Z.of_nat (List.length words)]
          ++ words
          ++ (if 0 <? tail_len then [tail_word] else [])
          ++ [tail_len; if cached self then 1 else 0])).
  { unfold serialize. rewrite Hscript. cbn [rbind]. rewrite Hrun.
    cbn [rbind sub_data pending_word pending_word_len].
    rewrite Z.gtb_ltb. destruct (0 <? tail_len); cbn [app];
      rewrite <- ?app_assoc; reflexivity. }
  repeat split; try assumption; try lia.
  intros ->. rewrite Hser. cbn in Hrun. inversion Hrun; subst. reflexivity.
Qed.

End PackingClaims.

(** ** The sequence hashed by [OutPoint.hash] *)

Section HashInput.
Import Py.

Lemma sum_scaled (g : nat -> Z) (c : Z) (l : list nat) :
  fold_right Z.add 0 (map (fun k => c * g k) l)
  = c * fold_right Z.add 0 (map g l).
Proof.
  induction l as [|k l IH]; cbn [map fold_right]; [lia|]. rewrite IH. lia.
Qed.

Lemma little_endian_value_step (bs : bytes) (first count : nat) :
  little_endian_value bs first (S count)
  = byte_val (nth first bs x00) + 256 * little_endian_value bs (S first) count.
Proof.
  unfold little_endian_value. cbn [seq map fold_right].
  rewrite Nat.add_0_r, <- seq_shift, map_map.
  change (256 ^ Z.of_nat 0) with 1. rewrite Z.mul_1_r. f_equal.
  rewrite <- sum_scaled. f_equal. apply map_ext. intro k.
  rewrite Nat.add_succ_r, Nat2Z.inj_succ, Z.pow_succ_r by lia.
  cbn [Nat.add]. lia.
Qed.

Lemma little_endian_value_ext (bs1 bs2 : bytes) (f1 f2 count : nat) :
  (forall k, (k < count)%nat -> nth (f1 + k) bs1 x00 = nth (f2 + k) bs2 x00) ->
  little_endian_value bs1 f1 count = little_endian_value bs2 f2 count.
Proof.
  intro H. unfold little_endian_value. f_equal. apply map_ext_in.
  intros k Hk. apply in_seq in Hk. rewrite H by lia. reflexivity.
Qed.

Lemma int_from_bytes_little_value (bs : bytes) :
  int_from_bytes_little bs = little_endian_value bs 0 (List.length bs).
Proof.
  induction bs as [|b bs IH]; [reflexivity|].
  cbn [int_from_bytes_little List.length].
  rewrite little_endian_value_step, IH. cbn [nth].
  rewrite (little_endian_value_ext (b :: bs) bs 1 0); reflexivity.
Qed.

Lemma low_half_value (bs : bytes) :
  List.length bs = 32%nat ->
  int_from_bytes_little (firstn 16 bs) = little_endian_value bs 0 16.
Proof.
  intro Hlen. rewrite int_from_bytes_little_value, length_firstn, Hlen.
  apply little_endian_value_ext. intros k Hk.
  rewrite nth_firstn. cbn [Nat.add Nat.min].
  destruct (Nat.ltb_spec k 16); [reflexivity|lia].
Qed.

Lemma high_half_value (bs : bytes) :
  List.length bs = 32%nat ->
  int_from_bytes_little (skipn 16 bs) = little_endian_value bs 16 16.
Proof.
  intro Hlen. rewrite int_from_bytes_little_value, length_skipn, Hlen.
  apply little_endian_value_ext. intros k Hk.
  rewrite nth_skipn. reflexivity.
Qed.

Context {P : Poseidon} {U : Utreexo}.

(** C3: for an OutPoint whose txid and block hash are hex strings of 32
    bytes (and whose script converts to bytes), [hash] makes exactly one
    external call, the hash of the sequence: txid bytes 0..15 and 16..31
    as little-endian integers, vout, the sequence [TxOut.serialize]
    returns, block-hash bytes 0..15 and 16..31 as little-endian integers,
    block height, block time, and the coinbase flag as 0 or 1; what the
    hash returns is returned. *)
Theorem C3_hash_sequence (self : OutPoint.t) (txid_bytes hash_bytes : bytes)
    (prev_output : list Z) (w : world) :
  bytes_fromhex (OutPoint.txid self) = Ok txid_bytes ->
  List.length txid_bytes = 32%nat ->
  bytes_fromhex (OutPoint.block_hash self) = Ok hash_bytes ->
  List.length hash_bytes = 32%nat ->
  TxOut.serialize (OutPoint.data self) = Ok prev_output ->
  let tab :=
    [little_endian_value txid_bytes 0 16;
     little_endian_value txid_bytes 16 16;
     OutPoint.vout self]
    ++ prev_output
    ++ [little_endian_value hash_bytes 0 16;
        little_endian_value hash_bytes 16 16;
        OutPoint.block_height self;
        OutPoint.block_time self;
        if OutPoint.is_coinbase self then 1 else 0] in
  OutPoint.hash_tab self = Ok tab /\
  OutPoint.hash self w
  = (Ok (poseidon_hash_many tab), mk_world (utreexo w) (calls w ++ [Compress tab])).
Proof.
  intros Htxid Hlen1 Hhash Hlen2 Hser tab.
  assert (Htab : OutPoint.hash_tab self = Ok tab).
  { unfold OutPoint.hash_tab. rewrite Htxid. cbn [rbind]. rewrite Hser. cbn [rbind].
    rewrite Hhash. cbn [rbind].
    rewrite !low_half_value, !high_half_value by assumption.
    unfold tab, int_of_bool. cbn [app]. rewrite <- !app_assoc. reflexivity. }
  split; [exact Htab|].
  unfold OutPoint.hash, mbind, lift, call_poseidon, mret. rewrite Htab. reflexivity.
Qed.

End HashInput.

(** ** Replaying blocks *)

Section Replay.
Context {P : Poseidon} {U : Utreexo}.
Import UtreexoData.

(** *** Reading the accumulator changes nothing *)

Lemma format_roots_total (nodes : list (option UtreexoNode)) :
  (forall node, In (Some node) nodes -> exists v, format_node node = Ok v) ->
  exists roots, rmap format_root_node nodes = Ok roots.
Proof.
  induction nodes as [|node nodes IH]; intro H; [now exists []|].
  destruct IH as [roots Hroots]; [intros n Hn; apply H; now right|].
  cbn [rmap]. rewrite Hroots. destruct node as [node|]; cbn.
  - destruct (H node (or_introl eq_refl)) as [v ->]. cbn. eauto.
  - eauto.
Qed.

(** Reading the accumulator leaves the world as it is. *)
Lemma snapshot_state_reads (w : world) :
  snapshot_state w = (fst (snapshot_state w), w).
Proof.
  unfold snapshot_state, mbind, read_utreexo, lift, mret.
  destruct (rmap format_root_node (root_nodes (utreexo w))); reflexivity.
Qed.

Lemma snapshot_state_total {L : UtreexoLaws U} (w : world) :
  exists s, snapshot_state w = (Ok s, w).
Proof.
  destruct (format_roots_total (root_nodes (utreexo w))) as [roots Hroots];
    [apply root_nodes_readable|].
  exists (mk_snapshot roots (leaf_nodes_len (utreexo w))).
  unfold snapshot_state, mbind, read_utreexo, lift, mret. now rewrite Hroots.
Qed.

(** *** Blocks made of cached outputs only *)

Lemma handle_txin_loop_cached (inputs : list Json.input) (proofs : list proof_json)
    (w : world) :
  forallb (fun input => Json.cached (Json.data (Json.previous_output input))) inputs = true ->
  handle_txin_loop inputs proofs w = (Ok proofs, w).
Proof.
  induction inputs as [|input inputs IH]; intro H; [reflexivity|].
  cbn in H. apply andb_true_iff in H. destruct H as [Hc H].
  cbn [handle_txin_loop]. rewrite Hc. auto.
Qed.

Lemma handle_txout_loop_cached (outputs : list Json.output) (i : Z)
    block_hash block_height block_time txid is_coinbase (w : world) :
  forallb Json.cached outputs = true ->
  handle_txout_loop i outputs block_hash block_height block_time txid is_coinbase w
  = (Ok tt, w).
Proof.
  revert i. induction outputs as [|output outputs IH]; intros i H; [reflexivity|].
  cbn in H. apply andb_true_iff in H. destruct H as [Hc H].
  cbn [handle_txout_loop]. rewrite Hc. auto.
Qed.

Lemma remove_stxos_cached (len_blocks block_idx i : Z)
    (items : list (Py.str * Json.tx)) (proofs : list proof_json) (w : world) :
  forallb (fun item => tx_all_cached (snd item)) items = true ->
  remove_stxos len_blocks block_idx i items proofs w = (Ok proofs, w).
Proof.
  revert i. induction items as [|[txid tx] items IH]; intros i H; [reflexivity|].
  cbn in H. apply andb_true_iff in H. destruct H as [Htx H].
  apply andb_true_iff in Htx. destruct Htx as [Hin _].
  cbn [remove_stxos]. destruct (negb (i =? 0)); [|auto].
  unfold mbind, handle_txin. rewrite handle_txin_loop_cached by exact Hin.
  rewrite app_nil_r. destruct (block_idx =? len_blocks - 1); auto.
Qed.

Lemma add_utxos_cached (block : Block.t) (i : Z)
    (items : list (Py.str * Json.tx)) (w : world) :
  forallb (fun item => tx_all_cached (snd item)) items = true ->
  add_utxos block i items w = (Ok tt, w).
Proof.
  revert i. induction items as [|[txid tx] items IH]; intros i H; [reflexivity|].
  cbn in H. apply andb_true_iff in H. destruct H as [Htx H].
  apply andb_true_iff in Htx. destruct Htx as [_ Hout].
  cbn [add_utxos]. unfold mbind, handle_txout.
  rewrite handle_txout_loop_cached by exact Hout. auto.
Qed.

Lemma mbind_run {A B} (m : M A) (k : A -> M B) (w : world) :
  mbind m k w
  = match m w with
    | (Ok a, w') => k a w'
    | (Raise e, w') => (Raise e, w')
    end.
Proof. reflexivity. Qed.

(** The loop body, phase by phase. *)
Lemma block_body_run (len_blocks block_idx : Z) (block : Block.t)
    (state : option snapshot) (proofs : list proof_json) (w : world) :
  block_body len_blocks block_idx block state proofs w
  = match (if block_idx =? len_blocks - 1
           then let? s := fst (snapshot_state w) in Ok (Some s)
           else Ok state) with
    | Raise e => (Raise e, w)
    | Ok state' =>
        match remove_stxos len_blocks block_idx 0 (Block.data block) proofs w with
        | (Ok proofs', w1) =>
            match add_utxos block 0 (Block.data block) w1 with
            | (Ok _, w2) => (Ok (state', proofs'), w2)
            | (Raise e, w2) => (Raise e, w2)
            end
        | (Raise e, w1) => (Raise e, w1)
        end
    end.
Proof.
  unfold block_body. rewrite mbind_run.
  assert (Hfirst :
    (if block_idx =? len_blocks - 1
     then s0 <- snapshot_state ;; mret (Some s0)
     else mret state) w
    = (if block_idx =? len_blocks - 1
       then let? s := fst (snapshot_state w) in Ok (Some s)
       else Ok state, w)).
  { destruct (block_idx =? len_blocks - 1); [|reflexivity].
    rewrite mbind_run. pose proof (snapshot_state_reads w) as Hread.
    destruct (snapshot_state w) as [[s|e] w0]; cbn [fst] in *;
      injection Hread as ->; reflexivity. }
  rewrite Hfirst.
  destruct (if block_idx =? len_blocks - 1
            then let? s := fst (snapshot_state w) in Ok (Some s)
            else Ok state) as [state'|e]; [|reflexivity].
  rewrite mbind_run.
  destruct (remove_stxos len_blocks block_idx 0 (Block.data block) proofs w)
    as [[proofs'|e] w1]; [|reflexivity].
  rewrite mbind_run.
  destruct (add_utxos block 0 (Block.data block) w1) as [[[]|e] w2]; reflexivity.
Qed.

(** C8: a block whose every referenced output and every output is cached
    goes through the loop body of [apply_blocks] without a single external
    call: both phases return with the world (the accumulator, hence its
    leaf count, and the log of calls) identical before and after and the
    list of proofs as before, and the body does nothing but take the
    snapshot when the block is the last one. *)
Theorem C8_cached_block_is_skipped (len_blocks block_idx : Z) (block : Block.t)
    (state : option snapshot) (proofs : list proof_json) (w : world) :
  block_all_cached block = true ->
  remove_stxos len_blocks block_idx 0 (Block.data block) proofs w = (Ok proofs, w) /\
  add_utxos block 0 (Block.data block) w = (Ok tt, w) /\
  block_body len_blocks block_idx block state proofs w
  = (if block_idx =? len_blocks - 1
     then let? s := fst (snapshot_state w) in Ok (Some s, proofs)
     else Ok (state, proofs),
     w).
Proof.
  intro H. unfold block_all_cached in H.
  pose proof (remove_stxos_cached len_blocks block_idx 0 _ proofs w H) as Hin.
  pose proof (add_utxos_cached block 0 _ w H) as Hout.
  split; [exact Hin|]. split; [exact Hout|].
  rewrite block_body_run.
  destruct (block_idx =? len_blocks - 1).
  - destruct (fst (snapshot_state w)) as [s|e]; cbn [rbind]; [|reflexivity].
    now rewrite Hin, Hout.
  - now rewrite Hin, Hout.
Qed.

(** *** The inputs of the first transaction *)

Lemma blocks_loop_ext (len_blocks : Z) (earlier later : list Block.t)
    (block block' : Block.t) :
  (forall block_idx state proofs w,
      block_body len_blocks block_idx block state proofs w
      = block_body len_blocks block_idx block' state proofs w) ->
  forall block_idx state proofs w,
    blocks_loop len_blocks block_idx (earlier ++ block :: later) state proofs w
    = blocks_loop len_blocks block_idx (earlier ++ block' :: later) state proofs w.
Proof.
  intro Hbody. induction earlier as [|b earlier IH]; intros block_idx state proofs w.
  - cbn [app blocks_loop]. unfold mbind. now rewrite Hbody.
  - cbn [app blocks_loop]. unfold mbind.
    destruct (block_body len_blocks block_idx b state proofs w) as [[[s p]|e] w1];
      [apply IH|reflexivity].
Qed.

Lemma add_utxos_ext (block block' : Block.t) (i : Z)
    (items : list (Py.str * Json.tx)) :
  Block.hash block = Block.hash block' ->
  Block.height block = Block.height block' ->
  Block.time block = Block.time block' ->
  add_utxos block i items = add_utxos block' i items.
Proof.
  intros Hh Hg Ht. revert i.
  induction items as [|[txid tx] items IH]; intro i; [reflexivity|].
  cbn [add_utxos]. rewrite Hh, Hg, Ht. now rewrite IH.
Qed.

(** C7: whatever the inputs of the first transaction of a block are,
    [apply_blocks] behaves the same: replacing them by any other list
    (the empty one, say) changes neither the result nor the accumulator
    nor the log of external calls, so no call is ever made for them. *)
Theorem C7_coinbase_inputs_never_read (earlier later : list Block.t)
    (hash : Py.str) (height time : Z) (txid : Py.str) (tx : Json.tx)
    (items : list (Py.str * Json.tx)) (inputs' : list Json.input) (w : world) :
  apply_blocks
    (earlier ++ Block.mk hash height time ((txid, tx) :: items) :: later) w
  = apply_blocks
      (earlier
       ++ Block.mk hash height time ((txid, Json.mk_tx inputs' (Json.outputs tx)) :: items)
       :: later) w.
Proof.
  unfold apply_blocks, mbind. rewrite !length_app. cbn [List.length].
  rewrite (blocks_loop_ext _ earlier later
             (Block.mk hash height time ((txid, tx) :: items))
             (Block.mk hash height time
                ((txid, Json.mk_tx inputs' (Json.outputs tx)) :: items)));
    [reflexivity|].
  intros. unfold block_body.
  cbn [Block.data Block.hash Block.height Block.time remove_stxos add_utxos
       Json.outputs Z.eqb negb].
  rewrite (add_utxos_ext
             (Block.mk hash height time
                ((txid, Json.mk_tx inputs' (Json.outputs tx)) :: items))
             (Block.mk hash height time ((txid, tx) :: items)) (0 + 1) items)
    by reflexivity.
  reflexivity.
Qed.

End Replay.

(** ** The log of external calls *)

Section Log.
Context {P : Poseidon} {U : Utreexo}.
Import UtreexoData.

Lemma uncached_leaf_app (leaf : Z) (seg1 seg2 : list event) :
  uncached_leaf leaf seg1 \/ uncached_leaf leaf seg2 ->
  uncached_leaf leaf (seg1 ++ seg2).
Proof.
  intros [H|H]; destruct H as (op & tab & Hc & Ht & Hl & Hin);
    exists op, tab; repeat split; auto; apply in_or_app; auto.
Qed.

Lemma leaves_uncached_nil : leaves_uncached [].
Proof. intros e []. Qed.

Lemma leaves_uncached_app (seg1 seg2 : list event) :
  leaves_uncached seg1 -> leaves_uncached seg2 -> leaves_uncached (seg1 ++ seg2).
Proof.
  intros H1 H2 e Hin. apply in_app_or in Hin. destruct Hin as [Hin|Hin].
  - specialize (H1 e Hin). destruct e; auto; apply uncached_leaf_app; auto.
  - specialize (H2 e Hin). destruct e; auto; apply uncached_leaf_app; auto.
Qed.

Lemma removals_app (seg1 seg2 : list event) :
  removals (seg1 ++ seg2) = removals seg1 ++ removals seg2.
Proof.
  induction seg1 as [|e seg1 IH]; [reflexivity|].
  destruct e as [tab|leaf [outcome|]|leaf]; cbn; now rewrite ?IH.
Qed.

Lemma removals_no_delete (seg : list event) :
  Forall no_delete seg -> removals seg = [].
Proof.
  induction 1 as [|e seg He _ IH]; [reflexivity|].
  destruct e as [tab|leaf outcome|leaf]; cbn in *; auto. contradiction.
Qed.

Lemma rmap_app {A B} (f : A -> result B) (l1 l2 : list A) (r1 r2 : list B) :
  rmap f l1 = Ok r1 -> rmap f l2 = Ok r2 -> rmap f (l1 ++ l2) = Ok (r1 ++ r2).
Proof.
  revert r1. induction l1 as [|a l1 IH]; intros r1 H1 H2.
  - cbn in H1. inversion H1; subst. exact H2.
  - cbn in *. destruct (f a) as [b|e]; [|discriminate]. cbn in *.
    destruct (rmap f l1) as [bs|e]; [|discriminate]. cbn in *.
    inversion H1; subst. rewrite (IH bs eq_refl H2). reflexivity.
Qed.

(** *** [handle_txin] *)

(** One iteration of the loop of [handle_txin], call by call. *)
Lemma handle_txin_loop_cons (input : Json.input) (inputs : list Json.input)
    (proofs : list proof_json) (w : world) :
  handle_txin_loop (input :: inputs) proofs w
  = if Json.cached (Json.data (Json.previous_output input))
    then handle_txin_loop inputs proofs w
    else
      match OutPoint.hash_tab (spent_outpoint (Json.previous_output input)) with
      | Raise e => (Raise e, w)
      | Ok tab =>
          let leaf := poseidon_hash_many tab in
          match delete (utreexo w) leaf with
          | None =>
              (Raise StructuralInconsistency,
               mk_world (utreexo w) (calls w ++ [Compress tab; Delete leaf None]))
          | Some (proof, leaf_index, u') =>
              let w' :=
                mk_world u'
                  (calls w ++ [Compress tab; Delete leaf (Some (proof, leaf_index))]) in
              match rmap format_node proof with
              | Raise e => (Raise e, w')
              | Ok formatted =>
                  handle_txin_loop inputs (proofs ++ [mk_proof formatted leaf_index]) w'
              end
          end
      end.
Proof.
  cbn [handle_txin_loop].
  change (OutPoint.mk _ _ _ _ _ _ _) with (spent_outpoint (Json.previous_output input)).
  destruct (Json.cached (Json.data (Json.previous_output input))); [reflexivity|].
  unfold OutPoint.hash, mbind, lift, call_poseidon, call_delete, mret.
  destruct (OutPoint.hash_tab _) as [tab|e]; [|reflexivity].
  cbn [utreexo calls].
  destruct (delete (utreexo w) (poseidon_hash_many tab)) as [[[proof leaf_index] u']|];
    cbn zeta; rewrite <- ?app_assoc; [|reflexivity].
  destruct (rmap format_node proof); reflexivity.
Qed.

Lemma handle_txin_loop_logs (inputs : list Json.input) (proofs : list proof_json)
    (w : world) :
  logs (handle_txin_loop inputs proofs) w (txin_post proofs).
Proof.
  revert proofs w. induction inputs as [|input inputs IH]; intros proofs w.
  - exists []. cbn. rewrite app_nil_r. split; [reflexivity|].
    repeat split; auto using leaves_uncached_nil.
    exists []. now rewrite app_nil_r.
  - unfold logs. rewrite handle_txin_loop_cons.
    destruct (Json.cached (Json.data (Json.previous_output input))) eqn:Hc;
      [apply IH|].
    set (op := spent_outpoint (Json.previous_output input)).
    assert (Hop : TxOut.cached (OutPoint.data op) = false) by exact Hc.
    destruct (OutPoint.hash_tab op) as [tab|e] eqn:Htab; cbn [fst snd].
    2:{ exists []. rewrite app_nil_r. split; [reflexivity|].
        repeat split; auto using leaves_uncached_nil. }
    cbn zeta.
    assert (Hleaf : forall seg, In (Compress tab) seg ->
              uncached_leaf (poseidon_hash_many tab) seg)
      by (intros seg Hin; exists op, tab; auto).
    destruct (delete (utreexo w) (poseidon_hash_many tab))
      as [[[proof leaf_index] u']|] eqn:Hdel; cbn [fst snd utreexo calls].
    2:{ exists [Compress tab; Delete (poseidon_hash_many tab) None].
        split; [reflexivity|].
        repeat split; auto.
        - repeat constructor.
        - intros e [<-|[<-|[]]]; cbn; auto. apply Hleaf. now left. }
    destruct (rmap format_node proof) as [formatted|e] eqn:Hfmt; cbn [fst snd].
    2:{ exists [Compress tab; Delete (poseidon_hash_many tab) (Some (proof, leaf_index))].
        split; [reflexivity|].
        repeat split; auto.
        - repeat constructor.
        - intros e' [<-|[<-|[]]]; cbn; auto. apply Hleaf. now left. }
    match goal with
    | |- context [handle_txin_loop inputs ?p ?w1] =>
        destruct (IH p w1) as (seg & Hcalls & Hno & Hun & Hres)
    end.
    cbn [utreexo calls] in *.
    exists ([Compress tab; Delete (poseidon_hash_many tab) (Some (proof, leaf_index))]
            ++ seg).
    split; [rewrite Hcalls, <- !app_assoc; reflexivity|].
    repeat split.
    + apply Forall_app. split; [repeat constructor|exact Hno].
    + apply leaves_uncached_app; [|exact Hun].
      intros e' [<-|[<-|[]]]; cbn; auto. apply Hleaf. now left.
    + destruct (fst (handle_txin_loop inputs _ _)) as [proofs'|e]; [|exact I].
      destruct Hres as (new & -> & Hnew).
      exists (mk_proof formatted leaf_index :: new). split.
      * now rewrite <- app_assoc.
      * cbn [app removals rmap]. unfold format_proof at 1. cbn [fst snd].
        rewrite Hfmt. cbn [rbind]. rewrite Hnew. reflexivity.
Qed.

Lemma logs_bind {A B} (m : M A) (k : A -> M B) (w : world)
    (Q1 : result A -> world -> list event -> Prop)
    (Q : result B -> world -> list event -> Prop) :
  logs m w Q1 ->
  (forall a w1 seg1,
      m w = (Ok a, w1) -> Q1 (Ok a) w1 seg1 ->
      logs (k a) w1 (fun r w2 seg2 => Q r w2 (seg1 ++ seg2))) ->
  (forall e w1 seg1,
      m w = (Raise e, w1) -> Q1 (Raise e) w1 seg1 -> Q (Raise e) w1 seg1) ->
  logs (mbind m k) w Q.
Proof.
  intros (seg1 & Hcalls & HQ1) Hok Hraise. unfold logs, mbind.
  destruct (m w) as [[a|e] w1] eqn:Hm; cbn [fst snd] in *.
  - destruct (Hok a w1 seg1 eq_refl HQ1) as (seg2 & Hcalls2 & HQ).
    exists (seg1 ++ seg2). split; [|exact HQ].
    now rewrite Hcalls2, Hcalls, app_assoc.
  - exists seg1. split; [exact Hcalls|]. now apply Hraise.
Qed.

Lemma logs_ret {A} (a : A) (w : world)
    (Q : result A -> world -> list event -> Prop) :
  Q (Ok a) w [] -> logs (mret a) w Q.
Proof.
  intro H. exists []. cbn. now rewrite app_nil_r.
Qed.

(** *** [handle_txout] *)

Lemma handle_txout_loop_cons (output : Json.output) (outputs : list Json.output)
    (i : Z) block_hash block_height block_time txid is_coinbase (w : world) :
  handle_txout_loop i (output :: outputs)
    block_hash block_height block_time txid is_coinbase w
  = if Json.cached output
    then handle_txout_loop (i + 1) outputs
           block_hash block_height block_time txid is_coinbase w
    else
      match OutPoint.hash_tab
              (OutPoint.mk txid i
                 (TxOut.mk (Json.value output) (Json.pk_script output)
                    (Json.cached output))
                 block_height block_time block_hash is_coinbase) with
      | Raise e => (Raise e, w)
      | Ok tab =>
          let leaf := poseidon_hash_many tab in
          handle_txout_loop (i + 1) outputs
            block_hash block_height block_time txid is_coinbase
            (mk_world (add (utreexo w) leaf) (calls w ++ [Compress tab; Add leaf]))
      end.
Proof.
  cbn [handle_txout_loop].
  set (op := OutPoint.mk _ _ _ _ _ _ _).
  destruct (Json.cached output); [reflexivity|].
  unfold OutPoint.hash, mbind, lift, call_poseidon, call_add, mret.
  destruct (OutPoint.hash_tab op) as [tab|e]; [|reflexivity].
  cbn [utreexo calls]. cbn zeta. rewrite <- app_assoc. reflexivity.
Qed.

Lemma handle_txout_loop_logs (outputs : list Json.output) (i : Z)
    block_hash block_height block_time txid is_coinbase (w : world) :
  logs (handle_txout_loop i outputs
          block_hash block_height block_time txid is_coinbase) w txout_post.
Proof.
  revert i w. induction outputs as [|output outputs IH]; intros i w.
  - apply logs_ret. split; [constructor|apply leaves_uncached_nil].
  - unfold logs. rewrite handle_txout_loop_cons.
    destruct (Json.cached output) eqn:Hc; [apply IH|].
    match goal with
    | |- context [OutPoint.hash_tab ?o] =>
        set (op := o);
        assert (Hop : TxOut.cached (OutPoint.data op) = false) by reflexivity
    end.
    destruct (OutPoint.hash_tab op) as [tab|e] eqn:Htab; cbn [fst snd].
    2:{ exists []. rewrite app_nil_r. split; [reflexivity|].
        split; [constructor|apply leaves_uncached_nil]. }
    cbn zeta.
    match goal with
    | |- context [handle_txout_loop ?j outputs _ _ _ _ _ ?w1] =>
        destruct (IH j w1) as (seg & Hcalls & Hno & Hun)
    end.
    cbn [calls] in Hcalls.
    exists ([Compress tab; Add (poseidon_hash_many tab)] ++ seg).
    split; [rewrite Hcalls, <- !app_assoc; reflexivity|].
    split.
    + apply Forall_app. split; [repeat constructor|exact Hno].
    + apply leaves_uncached_app; [|exact Hun].
      intros e' [<-|[<-|[]]]; cbn; auto.
      exists op, tab. repeat split; auto. now left.
Qed.

(** *** The two phases of a block *)

Lemma remove_stxos_logs (len_blocks block_idx i : Z)
    (items : list (Py.str * Json.tx)) (proofs : list proof_json) (w : world) :
  logs (remove_stxos len_blocks block_idx i items proofs) w
    (stxos_post (block_idx =? len_blocks - 1) proofs).
Proof.
  revert i proofs w. induction items as [|[txid tx] items IH]; intros i proofs w.
  - apply logs_ret. repeat split; auto using leaves_uncached_nil.
    destruct (block_idx =? len_blocks - 1); [|reflexivity].
    exists []. now rewrite app_nil_r.
  - cbn [remove_stxos]. destruct (negb (i =? 0)); [|apply IH].
    eapply logs_bind; [apply handle_txin_loop_logs| |].
    + intros inc w1 seg1 _ (Hno1 & Hun1 & new1 & Hinc & Hnew1).
      cbn [app] in Hinc. subst inc.
      destruct (IH (i + 1)
                  (if block_idx =? len_blocks - 1 then proofs ++ new1 else proofs) w1)
        as (seg2 & Hcalls & Hno2 & Hun2 & Hres).
      exists seg2. split; [exact Hcalls|].
      repeat split.
      * apply Forall_app; auto.
      * apply leaves_uncached_app; auto.
      * destruct (fst (remove_stxos _ _ _ _ _ _)) as [proofs'|e]; [|exact I].
        destruct (block_idx =? len_blocks - 1); [|exact Hres].
        destruct Hres as (new2 & -> & Hnew2).
        exists (new1 ++ new2). split; [now rewrite app_assoc|].
        rewrite removals_app. now apply rmap_app.
    + intros e w1 seg1 _ (Hno1 & Hun1 & _). repeat split; auto.
Qed.

Lemma add_utxos_logs (block : Block.t) (i : Z)
    (items : list (Py.str * Json.tx)) (w : world) :
  logs (add_utxos block i items) w txout_post.
Proof.
  revert i w. induction items as [|[txid tx] items IH]; intros i w.
  - apply logs_ret. split; [constructor|apply leaves_uncached_nil].
  - cbn [add_utxos]. eapply logs_bind; [apply handle_txout_loop_logs| |].
    + intros [] w1 seg1 _ (Hno1 & Hun1).
      destruct (IH (i + 1) w1) as (seg2 & Hcalls & Hno2 & Hun2).
      exists seg2. split; [exact Hcalls|]. split.
      * apply Forall_app; auto.
      * apply leaves_uncached_app; auto.
    + intros e w1 seg1 _ H. exact H.
Qed.

(** *** One block *)

Lemma block_body_logs (len_blocks block_idx : Z) (block : Block.t)
    (state : option snapshot) (proofs : list proof_json) (w : world) :
  logs (block_body len_blocks block_idx block state proofs) w
    (body_post len_blocks block_idx state proofs w).
Proof.
  destruct (remove_stxos_logs len_blocks block_idx 0 (Block.data block) proofs w)
    as (seg1 & Hcalls1 & Hno1 & Hun1 & Hres1).
  unfold logs, body_post. rewrite block_body_run.
  assert (Hstate : forall state',
    (if block_idx =? len_blocks - 1
     then let? s := fst (snapshot_state w) in Ok (Some s)
     else Ok state) = Ok state' ->
    if block_idx =? len_blocks - 1
    then exists s, snapshot_state w = (Ok s, w) /\ state' = Some s
    else state' = state).
  { intros state' Hstate. destruct (block_idx =? len_blocks - 1).
    - rewrite (snapshot_state_reads w).
      destruct (fst (snapshot_state w)) as [s|e]; [|discriminate].
      exists s. split; [reflexivity|]. now inversion Hstate.
    - now inversion Hstate. }
  destruct (if block_idx =? len_blocks - 1
            then let? s := fst (snapshot_state w) in Ok (Some s)
            else Ok state) as [state'|e]; cbn [fst snd].
  2:{ exists []. rewrite app_nil_r. split; [reflexivity|].
      split; [exists [], []; repeat split; constructor|].
      split; [apply leaves_uncached_nil|exact I]. }
  specialize (Hstate state' eq_refl).
  destruct (remove_stxos len_blocks block_idx 0 (Block.data block) proofs w)
    as [[proofs'|e] w1]; cbn [fst snd] in *.
  - destruct (add_utxos_logs block 0 (Block.data block) w1)
      as (seg2 & Hcalls2 & Hno2 & Hun2).
    destruct (add_utxos block 0 (Block.data block) w1) as [[[]|e] w2];
      cbn [fst snd mret] in *;
      exists (seg1 ++ seg2);
      (split; [now rewrite Hcalls2, Hcalls1, app_assoc|]);
      (split; [exists seg1, seg2; auto|]);
      (split; [now apply leaves_uncached_app|]); [|exact I].
    destruct (block_idx =? len_blocks - 1); [|auto].
    destruct Hstate as (s & Hs & ->).
    destruct Hres1 as (new & -> & Hnew). exists s, new.
    repeat split; auto.
    rewrite removals_app, (removals_no_delete seg2 Hno2), app_nil_r. exact Hnew.
  - exists seg1. split; [exact Hcalls1|].
    split; [exists seg1, []; rewrite app_nil_r; auto|]. auto.
Qed.

(** *** The loop over the blocks *)

Lemma blocks_loop_app (len_blocks block_idx : Z) (earlier later : list Block.t)
    (state : option snapshot) (proofs : list proof_json) (w : world) :
  blocks_loop len_blocks block_idx (earlier ++ later) state proofs w
  = match blocks_loop len_blocks block_idx earlier state proofs w with
    | (Ok (state', proofs'), w1) =>
        blocks_loop len_blocks (block_idx + Z.of_nat (List.length earlier)) later
          state' proofs' w1
    | (Raise e, w1) => (Raise e, w1)
    end.
Proof.
  revert block_idx state proofs w.
  induction earlier as [|block earlier IH]; intros block_idx state proofs w.
  - cbn. now rewrite Z.add_0_r.
  - cbn [app blocks_loop]. unfold mbind.
    destruct (block_body len_blocks block_idx block state proofs w)
      as [[[state1 proofs1]|e] w1]; [|reflexivity].
    rewrite IH. cbn [List.length].
    replace (block_idx + 1 + Z.of_nat (List.length earlier))
      with (block_idx + Z.of_nat (S (List.length earlier))) by lia.
    reflexivity.
Qed.

(** The blocks before the last one leave [state] and [proofs] alone. *)
Lemma blocks_loop_earlier (len_blocks : Z) (blocks : list Block.t) (block_idx : Z)
    (state : option snapshot) (proofs : list proof_json) (w : world)
    state' proofs' w' :
  block_idx + Z.of_nat (List.length blocks) <= len_blocks - 1 ->
  blocks_loop len_blocks block_idx blocks state proofs w = (Ok (state', proofs'), w') ->
  state' = state /\ proofs' = proofs.
Proof.
  revert block_idx state proofs w.
  induction blocks as [|block blocks IH]; intros block_idx state proofs w Hidx Hrun.
  - cbn in Hrun. inversion Hrun; auto.
  - cbn [blocks_loop List.length] in *. unfold mbind in Hrun.
    destruct (block_body_logs len_blocks block_idx block state proofs w)
      as (seg & _ & _ & _ & Hres).
    destruct (block_body len_blocks block_idx block state proofs w)
      as [[[state1 proofs1]|e] w1]; [|discriminate].
    cbn [fst] in Hres.
    destruct (Z.eqb_spec block_idx (len_blocks - 1)) as [Heq|_]; [lia|].
    destruct Hres as [-> ->].
    eapply IH; [|exact Hrun]. lia.
Qed.

Lemma blocks_loop_logs (len_blocks : Z) (blocks : list Block.t) (block_idx : Z)
    (state : option snapshot) (proofs : list proof_json) (w : world) :
  logs (blocks_loop len_blocks block_idx blocks state proofs) w
    (fun _ _ seg => leaves_uncached seg).
Proof.
  revert block_idx state proofs w.
  induction blocks as [|block blocks IH]; intros block_idx state proofs w.
  - apply logs_ret, leaves_uncached_nil.
  - cbn [blocks_loop]. eapply logs_bind; [apply block_body_logs| |].
    + intros [state1 proofs1] w1 seg1 _ (_ & Hun1 & _).
      destruct (IH (block_idx + 1) state1 proofs1 w1) as (seg2 & Hcalls & Hun2).
      exists seg2. split; [exact Hcalls|]. now apply leaves_uncached_app.
    + intros e w1 seg1 _ (_ & Hun1 & _). exact Hun1.
Qed.

(** [apply_blocks] on a non-empty sequence, seen from its last block. *)
Lemma apply_blocks_last (earlier : list Block.t) (last : Block.t)
    (w : world) (r : report) (w' : world) :
  let len_blocks := Z.of_nat (List.length (earlier ++ [last])) in
  apply_blocks (earlier ++ [last]) w = (Ok r, w') ->
  exists w1 s seg,
    blocks_loop len_blocks 0 earlier None [] w = (Ok (None, []), w1) /\
    snapshot_state w1 = (Ok s, w1) /\
    block_body len_blocks (len_blocks - 1) last None [] w1
    = (Ok (Some s, proofs r), w') /\
    state r = Some s /\
    snapshot_state w' = (Ok (expected r), w') /\
    calls w' = calls w1 ++ seg /\
    rmap format_proof (removals seg) = Ok (proofs r).
Proof.
  intros len_blocks Hrun. unfold apply_blocks, mbind in Hrun.
  fold len_blocks in Hrun. rewrite blocks_loop_app in Hrun.
  assert (Hlen : 0 + Z.of_nat (List.length earlier) = len_blocks - 1)
    by (unfold len_blocks; rewrite length_app; cbn [List.length]; lia).
  destruct (blocks_loop len_blocks 0 earlier None [] w)
    as [[[state1 proofs1]|e] w1] eqn:Hearlier; [|discriminate].
  destruct (blocks_loop_earlier _ _ _ _ _ _ _ _ _ (Z.eq_le_incl _ _ Hlen) Hearlier)
    as [-> ->].
  rewrite Hlen in Hrun. cbn [blocks_loop] in Hrun. unfold mbind in Hrun.
  destruct (block_body_logs len_blocks (len_blocks - 1) last None [] w1)
    as (seg & Hcalls & _ & _ & Hres).
  destruct (block_body len_blocks (len_blocks - 1) last None [] w1)
    as [[[state2 proofs2]|e] w2] eqn:Hbody; [|discriminate].
  cbn [fst snd mret] in *. rewrite Z.eqb_refl in Hres.
  destruct Hres as (s & new & Hs & -> & -> & Hnew). cbn [app] in *.
  pose proof (snapshot_state_reads w2) as Hread.
  destruct (snapshot_state w2) as [[s2|e] w3] eqn:Hs2; [|discriminate].
  cbn [fst] in Hread. injection Hread as Hw3. subst w3.
  inversion Hrun; subst. cbn [state proofs expected].
  exists w1, s, seg. repeat split; auto.
Qed.

End Log.

(** ** A removal of a leaf that is not in the accumulator *)

Section MissingLeaf.
Context {P : Poseidon} {U : Utreexo} {L : UtreexoLaws U}.
Import UtreexoData.

Lemma format_nodes_total (nodes : list UtreexoNode) :
  Forall (fun node => exists v, format_node node = Ok v) nodes ->
  exists formatted, rmap format_node nodes = Ok formatted.
Proof.
  induction 1 as [|node nodes [v Hv] _ [formatted IH]]; [now exists []|].
  exists (v :: formatted). cbn. now rewrite Hv, IH.
Qed.

Lemma handle_txin_loop_absent (leaf : Z) (inputs : list Json.input)
    (proofs : list proof_json) (w : world) :
  ~ member (utreexo w) leaf ->
  match handle_txin_loop inputs proofs w with
  | (Ok _, w') => ~ member (utreexo w') leaf /\ ~ spends inputs leaf
  | (Raise e, _) => inputs_readable inputs = true -> e = StructuralInconsistency
  end.
Proof.
  revert proofs w. induction inputs as [|input inputs IH]; intros proofs w Hout.
  - cbn. split; [exact Hout|]. intros (i & t & [] & _).
  - rewrite handle_txin_loop_cons. cbn [inputs_readable forallb].
    fold (inputs_readable inputs).
    destruct (Json.cached (Json.data (Json.previous_output input))) eqn:Hc.
    { specialize (IH proofs w Hout).
      destruct (handle_txin_loop inputs proofs w) as [[proofs'|e] w']; [|exact IH].
      destruct IH as [Hout' Hnone]. split; [exact Hout'|].
      intros (i & t & [<-|Hin] & Hci & Hti & Hli); [congruence|].
      apply Hnone. now exists i, t. }
    cbn [orb andb].
    destruct (OutPoint.hash_tab (spent_outpoint (Json.previous_output input)))
      as [tab|e] eqn:Htab; [|discriminate].
    cbn zeta. cbn [andb].
    destruct (delete (utreexo w) (poseidon_hash_many tab))
      as [[[proof leaf_index] u']|] eqn:Hdel; [|reflexivity].
    assert (Hne : poseidon_hash_many tab <> leaf).
    { intro Heq. rewrite <- Heq in Hout.
      rewrite (delete_absent _ _ Hout) in Hdel. discriminate. }
    destruct (format_nodes_total proof (delete_proof_readable _ _ _ _ _ Hdel))
      as [formatted ->].
    match goal with
    | |- context [handle_txin_loop inputs ?p ?w1] =>
        specialize (IH p w1); destruct (handle_txin_loop inputs p w1) as [[proofs'|e] w']
    end; cbn [utreexo] in IH.
    + destruct IH as [Hout' Hnone].
      { intro Hm. apply Hout. eapply delete_shrinks; eauto. }
      split; [exact Hout'|].
      intros (i & t & [<-|Hin] & Hci & Hti & Hli); [congruence|].
      apply Hnone. now exists i, t.
    + apply IH. intro Hm. apply Hout. eapply delete_shrinks; eauto.
Qed.

Lemma remove_stxos_absent (leaf : Z) (len_blocks block_idx i : Z)
    (items : list (Py.str * Json.tx)) (proofs : list proof_json) (w : world) :
  0 < i ->
  ~ member (utreexo w) leaf ->
  match remove_stxos len_blocks block_idx i items proofs w with
  | (Ok _, w') =>
      ~ member (utreexo w') leaf /\
      forall item, In item items -> ~ spends (Json.inputs (snd item)) leaf
  | (Raise e, _) =>
      forallb (fun item => inputs_readable (Json.inputs (snd item))) items = true ->
      e = StructuralInconsistency
  end.
Proof.
  revert i proofs w.
  induction items as [|[txid tx] items IH]; intros i proofs w Hi Hout.
  - cbn. split; [exact Hout|]. intros item [].
  - cbn [remove_stxos forallb snd].
    destruct (Z.eqb_spec i 0) as [Hz|_]; [lia|]. cbn [negb].
    rewrite mbind_run. unfold handle_txin.
    pose proof (handle_txin_loop_absent leaf (Json.inputs tx) [] w Hout) as Hin.
    destruct (handle_txin_loop (Json.inputs tx) [] w) as [[inc|e] w1].
    2:{ intro Hread. apply andb_true_iff in Hread. now apply Hin. }
    destruct Hin as [Hout1 Hnone].
    match goal with
    | |- context [remove_stxos _ _ ?j items ?p w1] =>
        specialize (IH j p w1 ltac:(lia) Hout1);
        destruct (remove_stxos len_blocks block_idx j items p w1) as [[proofs'|e] w2]
    end.
    + destruct IH as [Hout2 Hrest]. split; [exact Hout2|].
      intros item [<-|Hitem]; [exact Hnone|auto].
    + intro Hread. apply andb_true_iff in Hread. now apply IH.
Qed.

(** C4, amended: the calls issued for a block are a run without any
    [add] followed by a run without any [delete], whether the block goes
    through or fails; and when a transaction of a block spends a
    non-cached output created by an earlier transaction of that block,
    the earlier blocks having gone through and the leaf of that output
    not being a member of the accumulator when the block starts,
    [apply_blocks] fails before any [add] is issued for that block, with
    the error of [delete] whenever the outputs referenced by the inputs
    of the block are well-formed. *)
Theorem C4_removals_before_insertions :
  (forall len_blocks block_idx block state proofs (w : world),
      exists removes inserts,
        calls (snd (block_body len_blocks block_idx block state proofs w))
        = calls w ++ removes ++ inserts /\
        Forall no_add removes /\ Forall no_delete inserts) /\
  (forall (earlier later : list Block.t) (block : Block.t) (outpoint : OutPoint.t)
          (tab : list Z) state proofs (w w1 : world),
      same_block_spend block outpoint ->
      OutPoint.hash_tab outpoint = Ok tab ->
      blocks_loop (Z.of_nat (List.length (earlier ++ block :: later))) 0
        earlier None [] w = (Ok (state, proofs), w1) ->
      ~ member (utreexo w1) (poseidon_hash_many tab) ->
      exists e w' removes,
        apply_blocks (earlier ++ block :: later) w = (Raise e, w') /\
        (block_inputs_readable block = true -> e = StructuralInconsistency) /\
        calls w' = calls w1 ++ removes /\
        Forall no_add removes).
Proof.
  split.
  - intros len_blocks block_idx block state proofs w.
    destruct (block_body_logs len_blocks block_idx block state proofs w)
      as (seg & Hcalls & (removes & inserts & -> & Hno1 & Hno2) & _).
    now exists removes, inserts.
  - intros earlier later block outpoint tab state proofs w w1
      (before & txid1 & tx1 & between & txid2 & tx2 & after & vout & output & input
       & Hdata & _ & Hcached & Hcreated & Hin & Hspent)
      Htab Hearlier Hout.
    set (len_blocks := Z.of_nat (List.length (earlier ++ block :: later))) in *.
    set (block_idx := 0 + Z.of_nat (List.length earlier)).
    assert (Hspends : spends (Json.inputs tx2) (poseidon_hash_many tab)).
    { exists input, tab. repeat split; auto.
      - assert (H : TxOut.cached (OutPoint.data
                      (spent_outpoint (Json.previous_output input))) = false)
          by (rewrite Hspent, Hcreated; exact Hcached).
        exact H.
      - now rewrite Hspent. }
    (* the first phase fails *)
    assert (Hfail : exists e w',
               remove_stxos len_blocks block_idx 0 (Block.data block) proofs w1
               = (Raise e, w') /\
               (block_inputs_readable block = true -> e = StructuralInconsistency)).
    { unfold block_inputs_readable.
      destruct (Block.data block) as [|[txid0 tx0] items] eqn:Hitems;
        [destruct before; discriminate|].
      cbn [tl remove_stxos Z.eqb negb].
      pose proof (remove_stxos_absent (poseidon_hash_many tab) len_blocks block_idx
                    (0 + 1) items proofs w1 ltac:(lia) Hout) as Habs.
      destruct (remove_stxos len_blocks block_idx (0 + 1) items proofs w1)
        as [[proofs'|e] w']; [|eauto].
      exfalso. destruct Habs as [_ Hnone].
      apply (Hnone (txid2, tx2)); [|exact Hspends].
      destruct before as [|first before]; cbn [app] in Hdata;
        inversion Hdata; subst; apply in_or_app; right.
      - now left.
      - right. apply in_or_app. right. now left. }
    destruct Hfail as (e & w' & Hfail & Hkind). exists e, w'.
    destruct (remove_stxos_logs len_blocks block_idx 0 (Block.data block) proofs w1)
      as (removes & Hcalls & Hno & _).
    rewrite Hfail in Hcalls. cbn [snd] in Hcalls.
    exists removes. split; [|auto].
    unfold apply_blocks. fold len_blocks.
    rewrite mbind_run, blocks_loop_app, Hearlier. fold block_idx.
    cbn [blocks_loop]. rewrite mbind_run.
    destruct (snapshot_state_total w1) as [s Hs].
    rewrite block_body_run, Hs. cbn [fst rbind].
    destruct (block_idx =? len_blocks - 1); rewrite Hfail; reflexivity.
Qed.

End MissingLeaf.

(** ** The claims about what [apply_blocks] returns *)

Section ReplayClaims.
Context {P : Poseidon} {U : Utreexo}.
Import UtreexoData.

(** C5: on an empty sequence the list of proofs is empty; on a sequence
    with a last block, the blocks before it leave the list empty, and the
    list returned is, entry by entry and in order, what the successful
    [delete] calls made while the last block was processed returned (the
    proof nodes through [format_node], with the leaf index). *)
Theorem C5_proofs_come_from_last_block :
  (forall (w : world) r w', apply_blocks [] w = (Ok r, w') -> proofs r = []) /\
  (forall (earlier : list Block.t) (last : Block.t) (w : world) r w',
      apply_blocks (earlier ++ [last]) w = (Ok r, w') ->
      let len_blocks := Z.of_nat (List.length (earlier ++ [last])) in
      exists w1 seg,
        blocks_loop len_blocks 0 earlier None [] w = (Ok (None, []), w1) /\
        block_body len_blocks (len_blocks - 1) last None [] w1
        = (Ok (state r, proofs r), w') /\
        calls w' = calls w1 ++ seg /\
        rmap format_proof (removals seg) = Ok (proofs r)).
Proof.
  split.
  - intros w r w' Hrun. unfold apply_blocks in Hrun.
    rewrite mbind_run in Hrun. cbn [blocks_loop mret] in Hrun.
    rewrite mbind_run in Hrun.
    destruct (snapshot_state w) as [[s|e] w1]; [|discriminate].
    inversion Hrun; reflexivity.
  - intros earlier last w r w' Hrun len_blocks.
    destruct (apply_blocks_last earlier last w r w' Hrun)
      as (w1 & s & seg & Hearlier & Hs & Hbody & Hstate & _ & Hcalls & Hproofs).
    exists w1, seg. rewrite Hstate. auto.
Qed.

(** C6: on an empty sequence [apply_blocks] only takes the snapshot of
    the untouched accumulator and returns it as [expected], with the empty
    state [{}] and no proof; on
    a sequence with a last block, [state] is the snapshot of the
    accumulator as the earlier blocks left it, before the last block does
    anything, and [expected] the snapshot of the accumulator at the end. *)
Theorem C6_state_before_last_block :
  (forall (w : world),
      apply_blocks [] w
      = (let? s := fst (snapshot_state w) in Ok (mk_report None [] s), w)) /\
  (forall (earlier : list Block.t) (last : Block.t) (w : world) r w',
      apply_blocks (earlier ++ [last]) w = (Ok r, w') ->
      let len_blocks := Z.of_nat (List.length (earlier ++ [last])) in
      exists w1 s,
        blocks_loop len_blocks 0 earlier None [] w = (Ok (None, []), w1) /\
        snapshot_state w1 = (Ok s, w1) /\
        state r = Some s /\
        block_body len_blocks (len_blocks - 1) last None [] w1
        = (Ok (state r, proofs r), w') /\
        snapshot_state w' = (Ok (expected r), w')).
Proof.
  split.
  - intro w. unfold apply_blocks.
    rewrite mbind_run. cbn [blocks_loop mret]. rewrite mbind_run.
    pose proof (snapshot_state_reads w) as Hs.
    destruct (snapshot_state w) as [[s|e] w0]; cbn [fst] in *;
      injection Hs as ->; reflexivity.
  - intros earlier last w r w' Hrun len_blocks.
    destruct (apply_blocks_last earlier last w r w' Hrun)
      as (w1 & s & seg & Hearlier & Hs & Hbody & Hstate & Hexpected & _).
    exists w1, s. rewrite Hstate. auto.
Qed.

Lemma serialize_ends_with_flag (self : TxOut.t) (res : list Z) :
  TxOut.serialize self = Ok res ->
  last res 1 = if TxOut.cached self then 1 else 0.
Proof.
  unfold TxOut.serialize.
  destruct (TxOut.script_bytes (TxOut.pk_script self)) as [b|e]; [|discriminate].
  cbn [rbind]. destruct (TxOut.pack_loop b TxOut.pack_init) as [st|e]; [|discriminate].
  cbn [rbind]. intro H.
  match type of H with
  | Ok (?l ++ [?a]) = _ => assert (E : res = l ++ [a]) by congruence
  end.
  rewrite E. apply last_last.
Qed.

Lemma hash_tab_shape (self : OutPoint.t) (tab : list Z) :
  OutPoint.hash_tab self = Ok tab ->
  exists prev_output head tail,
    TxOut.serialize (OutPoint.data self) = Ok prev_output /\
    tab = head ++ prev_output ++ tail /\
    List.length head = 3%nat /\
    tail = (firstn 4 tail ++ [Py.int_of_bool (OutPoint.is_coinbase self)]).
Proof.
  unfold OutPoint.hash_tab.
  destruct (Py.bytes_fromhex (OutPoint.txid self)) as [b1|e]; [|discriminate].
  cbn [rbind].
  destruct (TxOut.serialize (OutPoint.data self)) as [prev_output|e]; [|discriminate].
  cbn [rbind].
  destruct (Py.bytes_fromhex (OutPoint.block_hash self)) as [b2|e]; [|discriminate].
  cbn [rbind]. intro H. inversion H.
  exists prev_output.
  eexists [_; _; _], [_; _; _; _; _].
  split; [reflexivity|]. split; [|split; reflexivity].
  cbn [app]. rewrite <- !app_assoc. reflexivity.
Qed.

(** C10, amended: every leaf handed to the accumulator, by [delete] or by
    [add], is the hash, computed by a call in the same run, of an
    OutPoint whose TxOut has cached = false; the sequence hashed is three
    elements, then what [TxOut.serialize] returns, which ends with the
    cached flag 0, then five elements the last of which is the coinbase
    flag. *)
Theorem C10_leaves_are_uncached (blocks : list Block.t) (w : world) :
  exists seg,
    calls (snd (apply_blocks blocks w)) = calls w ++ seg /\
    forall e, In e seg ->
      match e with
      | Compress _ => True
      | Add leaf | Delete leaf _ =>
          exists outpoint tab prev_output head tail,
            TxOut.cached (OutPoint.data outpoint) = false /\
            OutPoint.hash_tab outpoint = Ok tab /\
            In (Compress tab) seg /\
            leaf = poseidon_hash_many tab /\
            TxOut.serialize (OutPoint.data outpoint) = Ok prev_output /\
            last prev_output 1 = 0 /\
            tab = head ++ prev_output ++ tail /\
            List.length head = 3%nat /\
            tail = firstn 4 tail ++ [Py.int_of_bool (OutPoint.is_coinbase outpoint)]
      end.
Proof.
  destruct (blocks_loop_logs (Z.of_nat (List.length blocks)) blocks 0 None [] w)
    as (seg & Hcalls & Hun).
  exists seg. split.
  - unfold apply_blocks. rewrite mbind_run.
    destruct (blocks_loop _ 0 blocks None [] w) as [[[state proofs]|e] w1];
      cbn [fst snd] in *; [|exact Hcalls].
    rewrite mbind_run, (snapshot_state_reads w1).
    destruct (fst (snapshot_state w1)); exact Hcalls.
  - assert (Hshape : forall leaf, uncached_leaf leaf seg ->
      exists outpoint tab prev_output head tail,
        TxOut.cached (OutPoint.data outpoint) = false /\
        OutPoint.hash_tab outpoint = Ok tab /\
        In (Compress tab) seg /\
        leaf = poseidon_hash_many tab /\
        TxOut.serialize (OutPoint.data outpoint) = Ok prev_output /\
        last prev_output 1 = 0 /\
        tab = head ++ prev_output ++ tail /\
        List.length head = 3%nat /\
        tail = firstn 4 tail ++ [Py.int_of_bool (OutPoint.is_coinbase outpoint)]).
    { intros leaf (outpoint & tab & Hc & Htab & Hleaf & Hin).
      destruct (hash_tab_shape outpoint tab Htab)
        as (prev_output & head & tail & Hser & Hsplit & Hhead & Htail).
      exists outpoint, tab, prev_output, head, tail. repeat split; auto.
      rewrite (serialize_ends_with_flag _ _ Hser), Hc. reflexivity. }
    intros e Hin. specialize (Hun e Hin). destruct e; auto.
Qed.

End ReplayClaims.

(** ** The list-backed accumulator satisfies the interface *)

Module Reference.
Import ListForest.

Lemma fromhex_hex_of_bytes (bs : Py.bytes) :
  Py.bytes_fromhex (hex_of_bytes bs) = Ok bs.
Proof.
  induction bs as [|b bs IH]; [reflexivity|].
  change (hex_of_bytes (b :: bs)) with (hex_of_byte b ++ hex_of_bytes bs).
  destruct b; cbn; rewrite IH; reflexivity.
Qed.

Lemma node_of_readable (v : Z) : exists x, format_node (node_of v) = Ok x.
Proof.
  unfold format_node, node_of. cbn [val].
  change (skipn 2 (Py.lit "0x" ++ ?l)) with l.
  rewrite fromhex_hex_of_bytes. cbn. eauto.
Qed.

Lemma delete_first_absent (u : list Z) (leaf i : Z) :
  ~ In leaf u -> delete_first u leaf i = None.
Proof.
  revert i. induction u as [|x u IH]; intros i Hn; [reflexivity|].
  cbn. destruct (Z.eqb_spec x leaf) as [->|Hne].
  - exfalso. apply Hn. now left.
  - rewrite IH; [reflexivity|]. intro Hin. apply Hn. now right.
Qed.

Lemma delete_first_incl (u : list Z) (leaf i j : Z) (u' : list Z) :
  delete_first u leaf i = Some (j, u') -> incl u' u.
Proof.
  revert i j u'. induction u as [|x u IH]; intros i j u' H; [discriminate|].
  cbn in H. destruct (x =? leaf).
  - inversion H; subst. apply incl_tl, incl_refl.
  - destruct (delete_first u leaf (i + 1)) as [[k u'']|] eqn:E; [|discriminate].
    inversion H; subst. apply incl_cons; [now left|].
    apply incl_tl. eapply IH; eauto.
Qed.

Lemma list_delete_absent (u : list Z) (leaf : Z) :
  ~ In leaf u -> list_delete u leaf = None.
Proof.
  intro Hn. unfold list_delete. now rewrite delete_first_absent.
Qed.

Lemma list_delete_shrinks (u : list Z) (leaf : Z) proof leaf_index u' leaf' :
  list_delete u leaf = Some (proof, leaf_index, u') -> In leaf' u' -> In leaf' u.
Proof.
  unfold list_delete.
  destruct (delete_first u leaf 0) as [[i u1]|] eqn:E; [|discriminate].
  intros H Hin. inversion H; subst. eapply delete_first_incl; eauto.
Qed.

Lemma list_delete_proof_readable (u : list Z) (leaf : Z) proof leaf_index u' :
  list_delete u leaf = Some (proof, leaf_index, u') ->
  Forall (fun node => exists v, format_node node = Ok v) proof.
Proof.
  unfold list_delete.
  destruct (delete_first u leaf 0) as [[i u1]|]; [|discriminate].
  intro H. inversion H; subst. apply Forall_forall. intros n Hn.
  apply in_map_iff in Hn. destruct Hn as [v [<- _]]. apply node_of_readable.
Qed.

Lemma list_roots_readable (u : list Z) (node : UtreexoNode) :
  In (Some node) (map (fun leaf => Some (node_of leaf)) u) ->
  exists v, format_node node = Ok v.
Proof.
  intro H. apply in_map_iff in H. destruct H as [v [E _]].
  inversion E; subst. apply node_of_readable.
Qed.

Definition utreexo : Utreexo := {|
  forest := list Z;
  empty_forest := [];
  root_nodes := map (fun leaf => Some (node_of leaf));
  leaf_nodes_len := fun u => Z.of_nat (List.length u);
  add := fun u leaf => u ++ [leaf];
  delete := list_delete
|}.

Definition utreexo_laws : UtreexoLaws utreexo :=
  @Build_UtreexoLaws utreexo
    (fun (u : list Z) leaf => In leaf u)
    list_delete_absent
    list_delete_shrinks
    list_delete_proof_readable
    list_roots_readable.

Definition poseidon : Poseidon := ListForest.poseidon.

Definition genesis : @world utreexo := mk_world (U := utreexo) [] [].

End Reference.

(** ** Runs on the sample blocks *)

Module Runs.
Import UtreexoData Scenario.

#[local] Existing Instance Reference.poseidon.
#[local] Existing Instance Reference.utreexo.
#[local] Existing Instance Reference.utreexo_laws.

(** C4, as the claim words it, fails: replayed after block 1, a block
    with the same identity in which the second transaction spends the
    output of the first goes through, because the leaf is already in the
    accumulator when the block starts. *)
Lemma C4_same_block_spend_may_succeed :
  same_block_spend block_1_spent (spent_outpoint outpoint_1) /\
  exists r w', apply_blocks [block_1; block_1_spent] Reference.genesis = (Ok r, w').
Proof.
  split.
  - exists [], txid_1, coinbase_1, [], txid_3, spend_1, [], 0%nat, output_1,
      (Json.mk_input outpoint_1).
    repeat split; try reflexivity. now left.
  - assert (H : option_map (fun _ => tt)
                  (value_of (fst (apply_blocks [block_1; block_1_spent] Reference.genesis)))
                = Some tt) by (vm_compute; reflexivity).
    destruct (apply_blocks [block_1; block_1_spent] Reference.genesis)
      as [[r|e] w'] eqn:Hrun; [eauto|discriminate].
Qed.

(** C10, as the claim words it, fails: the sequence hashed into the leaf
    of the coinbase output of block 1 ends with the coinbase flag 1, not
    with the cached flag 0. *)
Lemma C10_hashed_sequence_may_end_with_1 :
  exists tab,
    In (Compress tab) (calls (snd (apply_blocks [block_1] Reference.genesis))) /\
    In (Add (poseidon_hash_many tab))
      (calls (snd (apply_blocks [block_1] Reference.genesis))) /\
    last tab 0 <> 0.
Proof.
  eexists. split; [|split].
  - vm_compute. left. reflexivity.
  - vm_compute. right. left. reflexivity.
  - vm_compute. discriminate.
Qed.

(** C2 on a three-byte script. *)
Lemma C2_serialize_layout_witness :
  let self := TxOut.mk 5000000000 (Py.lit "0x76a914") false in
  TxOut.script_bytes (TxOut.pk_script self) = Ok [x76; xa9; x14] /\
  TxOut.serialize self = Ok [5000000000; 0; 0x76a914; 3; 0].
Proof.
  intro self. split; [reflexivity|].
  destruct (C2_serialize_layout self [x76; xa9; x14] eq_refl)
    as (words & tail_word & tail_len & Hrun & _ & _ & Hser & _).
  vm_compute in Hrun. inversion Hrun; subst. exact Hser.
Defined.

(** C3 on the coinbase output of block 1. *)
Lemma C3_hash_sequence_witness :
  let self := spent_outpoint outpoint_1 in
  Py.bytes_fromhex (OutPoint.txid self) = Ok (bytes_of_hex txid_1) /\
  List.length (bytes_of_hex txid_1) = 32%nat /\
  Py.bytes_fromhex (OutPoint.block_hash self) = Ok (bytes_of_hex block_hash_1) /\
  List.length (bytes_of_hex block_hash_1) = 32%nat /\
  TxOut.serialize (OutPoint.data self) = Ok [5000000000; 0; 0; 5; 0] /\
  exists tab,
    nth 2 tab 0 = 0 /\
    firstn 5 (skipn 3 tab) = [5000000000; 0; 0; 5; 0] /\
    skipn 10 tab = [1; 1231469665; 1] /\
    OutPoint.hash self Reference.genesis
    = (Ok (poseidon_hash_many tab), mk_world [] [Compress tab]).
Proof.
  intro self.
  assert (H1 : Py.bytes_fromhex (OutPoint.txid self) = Ok (bytes_of_hex txid_1))
    by (vm_compute; reflexivity).
  assert (H2 : Py.bytes_fromhex (OutPoint.block_hash self) = Ok (bytes_of_hex block_hash_1))
    by (vm_compute; reflexivity).
  assert (H3 : TxOut.serialize (OutPoint.data self) = Ok [5000000000; 0; 0; 5; 0])
    by (vm_compute; reflexivity).
  repeat (split; [assumption || reflexivity|]).
  pose proof (C3_hash_sequence self _ _ _ Reference.genesis H1 eq_refl H2 eq_refl H3)
    as [_ Hhash].
  eexists. split; [|split; [|split; [|exact Hhash]]]; reflexivity.
Defined.

(** C4 on block 1 with the spending transaction added, replayed alone. *)
Lemma C4_removals_before_insertions_witness :
  same_block_spend block_1_spent (spent_outpoint outpoint_1) /\
  block_inputs_readable block_1_spent = true /\
  exists w' removes,
    apply_blocks [block_1_spent] Reference.genesis
    = (Raise StructuralInconsistency, w') /\
    calls w' = removes /\ Forall no_add removes.
Proof.
  assert (Hspend : same_block_spend block_1_spent (spent_outpoint outpoint_1)).
  { exists [], txid_1, coinbase_1, [], txid_3, spend_1, [], 0%nat, output_1,
      (Json.mk_input outpoint_1).
    repeat split; try reflexivity. now left. }
  split; [exact Hspend|]. split; [reflexivity|].
  eassert (Htab : OutPoint.hash_tab (spent_outpoint outpoint_1) = Ok _)
    by (vm_compute; reflexivity).
  assert (Hempty : forall leaf, ~ member (utreexo Reference.genesis) leaf)
    by (intros leaf []).
  destruct (proj2 C4_removals_before_insertions [] [] block_1_spent _ _ None []
              Reference.genesis Reference.genesis Hspend Htab eq_refl
              (Hempty _))
    as (e & w' & removes & Hrun & Hkind & Hcalls & Hno).
  rewrite (Hkind eq_refl) in Hrun.
  exists w', removes. auto.
Defined.

(** C5 on three blocks, the last of which spends the output of the second. *)
Lemma C5_proofs_come_from_last_block_witness :
  exists r w',
    apply_blocks ([block_0; block_1] ++ [block_2]) Reference.genesis = (Ok r, w') /\
    List.length (proofs r) = 1%nat /\
    exists w1 seg,
      blocks_loop 3 0 [block_0; block_1] None [] Reference.genesis
      = (Ok (None, []), w1) /\
      block_body 3 (3 - 1) block_2 None [] w1 = (Ok (state r, proofs r), w') /\
      calls w' = calls w1 ++ seg /\
      rmap format_proof (removals seg) = Ok (proofs r).
Proof.
  assert (H : option_map (fun r => List.length (proofs r))
                (value_of
                   (fst (apply_blocks ([block_0; block_1] ++ [block_2]) Reference.genesis)))
              = Some 1%nat) by (vm_compute; reflexivity).
  destruct (apply_blocks ([block_0; block_1] ++ [block_2]) Reference.genesis)
    as [[r|e] w'] eqn:Hrun; [|discriminate].
  cbn [fst value_of option_map] in H. injection H as H.
  exists r, w'. split; [reflexivity|]. split; [exact H|].
  exact (proj2 C5_proofs_come_from_last_block _ _ _ _ _ Hrun).
Defined.

(** C6 on the same three blocks: two leaves before the last block, one after. *)
Lemma C6_state_before_last_block_witness :
  exists r w',
    apply_blocks ([block_0; block_1] ++ [block_2]) Reference.genesis = (Ok r, w') /\
    option_map num_leaves (state r) = Some 2 /\
    num_leaves (expected r) = 1 /\
    exists w1 s,
      blocks_loop 3 0 [block_0; block_1] None [] Reference.genesis
      = (Ok (None, []), w1) /\
      snapshot_state w1 = (Ok s, w1) /\
      state r = Some s /\
      block_body 3 (3 - 1) block_2 None [] w1 = (Ok (state r, proofs r), w') /\
      snapshot_state w' = (Ok (expected r), w').
Proof.
  assert (H : option_map
                (fun r => (option_map num_leaves (state r), num_leaves (expected r)))
                (value_of
                   (fst (apply_blocks ([block_0; block_1] ++ [block_2]) Reference.genesis)))
              = Some (Some 2, 1)) by (vm_compute; reflexivity).
  destruct (apply_blocks ([block_0; block_1] ++ [block_2]) Reference.genesis)
    as [[r|e] w'] eqn:Hrun; [|discriminate].
  cbn [fst value_of option_map] in H. injection H as Hstate Hexpected.
  exists r, w'. split; [reflexivity|]. split; [exact Hstate|]. split; [exact Hexpected|].
  exact (proj2 C6_state_before_last_block _ _ _ _ _ Hrun).
Defined.

(** C8 on a block of cached outputs, replayed alone on the empty accumulator. *)
Lemma C8_cached_block_is_skipped_witness :
  block_all_cached block_cached = true /\
  remove_stxos 1 0 0 (Block.data block_cached) [] Reference.genesis
  = (Ok [], Reference.genesis) /\
  add_utxos block_cached 0 (Block.data block_cached) Reference.genesis
  = (Ok tt, Reference.genesis) /\
  block_body 1 0 block_cached None [] Reference.genesis
  = (Ok (Some (mk_snapshot [] 0), []), Reference.genesis).
Proof.
  split; [reflexivity|].
  exact (C8_cached_block_is_skipped 1 0 block_cached None [] Reference.genesis eq_refl).
Defined.

End Runs.

(** * Further properties of the script *)

(** ** Vocabulary *)

(** Neither a hexadecimal digit nor white space: [bytes.fromhex] rejects it. *)
Definition stray_char (c : N) : bool :=
  negb (Py.is_space c) && match Py.hex_digit c with Some _ => false | None => true end.

(** [pk_script] is read as hexadecimal. *)
Definition hex_prefixed (pk_script : Py.str) : bool :=
  Py.startswith pk_script (Py.lit "0x") || Py.startswith pk_script (Py.lit "0X").

(** [enumerate(l)], counting from [i]. *)
Fixpoint enumerate_from {A} (i : Z) (l : list A) : list (Z * A) :=
  match l with
  | [] => []
  | a :: l' => (i, a) :: enumerate_from (i + 1) l'
  end.

(** The outputs [handle_txout] does not skip, each with its index. *)
Definition live_outputs (outputs : list Json.output) : list (Z * Json.output) :=
  filter (fun p => negb (Json.cached (snd p))) (enumerate_from 0 outputs).

(** The inputs [handle_txin] does not skip. *)
Definition live_inputs (inputs : list Json.input) : list Json.input :=
  filter (fun input => negb (Json.cached (Json.data (Json.previous_output input)))) inputs.


(** ** What [TxOut.serialize] returns *)

Section SerializeFacts.
Import Py TxOut.

Lemma packs_unpack (read : bytes) (st : pack_state) :
  packs read st -> unpack st = read.
Proof.
  intros (groups & left_over & -> & Hgroups & _ & Hsub & Hword & Hwlen).
  unfold unpack. rewrite Hsub, Hword, Hwlen, Nat2Z.id, big_endian_digits_from_bytes.
  f_equal. clear Hsub.
  induction Hgroups as [|g groups Hg _ IH]; [reflexivity|].
  cbn [map flat_map concat]. rewrite IH, <- Hg, big_endian_digits_from_bytes.
  reflexivity.
Qed.

Lemma packs_empty_tail (read : bytes) (st : pack_state) :
  packs read st -> pending_word_len st = 0 -> pending_word st = 0.
Proof.
  intros (groups & left_over & _ & _ & _ & _ & -> & ->) Hz.
  destruct left_over; [reflexivity|cbn in Hz; lia].
Qed.

(** The list [serialize] builds from the state the loop ends in. *)
Definition serialized (self : TxOut.t) (st : pack_state) : list Z :=
  [value self; Z.of_nat (List.length (sub_data st))]
  ++ sub_data st
  ++ (if pending_word_len st >? 0 then [pending_word st] else [])
  ++ [pending_word_len st; if cached self then 1 else 0].

Lemma serialize_run (self : TxOut.t) (byte_data : bytes) :
  script_bytes (pk_script self) = Ok byte_data ->
  exists st,
    pack_loop byte_data pack_init = Ok st /\ packs byte_data st /\
    serialize self = Ok (serialized self st).
Proof.
  intro Hscript. destruct (pack_loop_total byte_data) as (st & Hrun & Hst).
  exists st. split; [exact Hrun|]. split; [exact Hst|].
  unfold serialize, serialized. rewrite Hscript. cbn [rbind]. rewrite Hrun.
  cbn [rbind]. destruct (pending_word_len st >? 0); cbn [app];
    rewrite <- ?app_assoc; reflexivity.
Qed.

Lemma app_inv_length {A} (a1 a2 b1 b2 : list A) :
  List.length a1 = List.length a2 -> a1 ++ b1 = a2 ++ b2 -> a1 = a2 /\ b1 = b2.
Proof.
  revert a2. induction a1 as [|x a1 IH]; intros [|y a2] Hlen H; try discriminate.
  - now split.
  - cbn in *. injection H as -> H. injection Hlen as Hlen.
    destruct (IH a2 Hlen H) as [-> ->]. now split.
Qed.

Lemma app_inv_tail_length {A} (a1 a2 b1 b2 : list A) :
  List.length b1 = List.length b2 -> a1 ++ b1 = a2 ++ b2 -> a1 = a2 /\ b1 = b2.
Proof.
  intros Hlen H. apply app_inv_length; [|exact H].
  apply (f_equal (@List.length A)) in H. rewrite !length_app in H. lia.
Qed.

Lemma serialize_raise_script (self : TxOut.t) (e : exn) :
  serialize self = Raise e -> script_bytes (pk_script self) = Raise e.
Proof.
  destruct (script_bytes (pk_script self)) as [byte_data|e'] eqn:Hscript.
  - destruct (serialize_run self byte_data Hscript) as (st & _ & _ & ->). discriminate.
  - unfold serialize. rewrite Hscript. cbn [rbind]. intro H. now inversion H.
Qed.

Lemma serialize_ok_script (self : TxOut.t) (res : list Z) :
  serialize self = Ok res ->
  exists byte_data st,
    script_bytes (pk_script self) = Ok byte_data /\
    packs byte_data st /\ res = serialized self st.
Proof.
  intro H. destruct (script_bytes (pk_script self)) as [byte_data|e] eqn:Hscript.
  - destruct (serialize_run self byte_data Hscript) as (st & _ & Hst & Hser).
    exists byte_data, st. repeat split; auto. congruence.
  - unfold serialize in H. rewrite Hscript in H. discriminate.
Qed.

(** Equal serializations come from equal values, bytes and flags. *)
Lemma serialized_inj (self1 self2 : TxOut.t) (b1 b2 : bytes) (st1 st2 : pack_state) :
  packs b1 st1 -> packs b2 st2 ->
  serialized self1 st1 = serialized self2 st2 ->
  value self1 = value self2 /\ b1 = b2 /\ cached self1 = cached self2.
Proof.
  intros Hst1 Hst2 H1.
  injection H1 as Hvalue Hcount Hrest.
  apply Nat2Z.inj in Hcount.
  apply app_inv_length in Hrest; [|exact Hcount]. destruct Hrest as [Hsub Htail].
  assert (Hpending : pending_word_len st1 = pending_word_len st2 /\
                     pending_word st1 = pending_word st2 /\
                     cached self1 = cached self2).
  { assert (Hflag : forall c1 c2 : bool,
              (if c1 then 1 else 0) = (if c2 then 1 else 0) -> c1 = c2)
      by (intros [] []; intro; congruence).
    destruct (Z.gtb_spec (pending_word_len st1) 0) as [Hp1|Hp1];
      destruct (Z.gtb_spec (pending_word_len st2) 0) as [Hp2|Hp2];
      cbn [app] in Htail;
      try (apply (f_equal (@List.length Z)) in Htail; discriminate).
    - inversion Htail. auto.
    - inversion Htail.
      destruct (packs_length _ _ Hst1) as [_ Hr1].
      destruct (packs_length _ _ Hst2) as [_ Hr2].
      assert (Hz1 : pending_word_len st1 = 0) by lia.
      assert (Hz2 : pending_word_len st2 = 0) by lia.
      rewrite (packs_empty_tail _ _ Hst1 Hz1), (packs_empty_tail _ _ Hst2 Hz2).
      auto. }
  destruct Hpending as (Hlen & Hword & Hcached).
  repeat split; auto.
  rewrite <- (packs_unpack _ _ Hst1), <- (packs_unpack _ _ Hst2).
  unfold unpack. now rewrite Hsub, Hlen, Hword.
Qed.

(** [serialize] fails exactly when the script does not convert to bytes,
    and with the same exception: neither the range check of the loop nor
    [to_bytes] ever raises. *)
Theorem serialize_fails_with_script (self : TxOut.t) (e : exn) :
  serialize self = Raise e <-> script_bytes (pk_script self) = Raise e.
Proof.
  destruct (script_bytes (pk_script self)) as [byte_data|e'] eqn:Hscript.
  - destruct (serialize_run self byte_data Hscript) as (st & _ & _ & ->).
    split; discriminate.
  - unfold serialize. rewrite Hscript. cbn [rbind].
    split; intro H; inversion H; reflexivity.
Qed.

(** The serialized sequence determines the output: two TxOut with the same
    serialization have the same value, the same script bytes and the same
    cached flag. *)
Theorem serialize_injective (self1 self2 : TxOut.t) (res : list Z) :
  serialize self1 = Ok res ->
  serialize self2 = Ok res ->
  value self1 = value self2 /\
  script_bytes (pk_script self1) = script_bytes (pk_script self2) /\
  cached self1 = cached self2.
Proof.
  intros H1 H2.
  destruct (serialize_ok_script _ _ H1) as (b1 & st1 & Hb1 & Hst1 & Hres1).
  destruct (serialize_ok_script _ _ H2) as (b2 & st2 & Hb2 & Hst2 & Hres2).
  rewrite Hres1 in Hres2.
  destruct (serialized_inj _ _ _ _ _ _ Hst1 Hst2 Hres2) as (Hvalue & Hbytes & Hcached).
  rewrite Hb1, Hb2, Hbytes. auto.
Qed.

(** The serialized sequence has four elements more than the script has
    groups of 31 bytes, the incomplete last one included. *)
Theorem serialize_length (self : TxOut.t) (byte_data : bytes) (res : list Z) :
  script_bytes (pk_script self) = Ok byte_data ->
  serialize self = Ok res ->
  Z.of_nat (List.length res) = 4 + (Z.of_nat (List.length byte_data) + 30) / 31.
Proof.
  intros Hscript Hser.
  destruct (serialize_run self byte_data Hscript) as (st & _ & Hst & Hser').
  rewrite Hser' in Hser. injection Hser as <-.
  destruct (packs_length _ _ Hst) as [Hlen Hrange].
  unfold serialized. rewrite !length_app. cbn [List.length].
  rewrite Hlen.
  replace (31 * Z.of_nat (List.length (sub_data st)) + pending_word_len st + 30)
    with ((pending_word_len st + 30) + Z.of_nat (List.length (sub_data st)) * 31) by lia.
  rewrite Z.div_add by lia.
  destruct (Z.gtb_spec (pending_word_len st) 0) as [Hp|Hp]; cbn [List.length].
  - replace ((pending_word_len st + 30) / 31) with 1; [lia|].
    apply Z.div_unique with (r := pending_word_len st - 1); [left; lia|lia].
  - assert (Hz : pending_word_len st = 0) by lia. rewrite Hz.
    change ((0 + 30) / 31) with 0. lia.
Qed.

(** Whatever the value, everything [serialize] writes after the word
    count is a non-negative integer below 2^248: the words, the pending
    word, its length and the flag all fit one field element. *)
Theorem serialize_script_part_bounded (self : TxOut.t) (res : list Z) :
  serialize self = Ok res ->
  Forall (fun x => 0 <= x < 2 ^ 248) (skipn 2 res).
Proof.
  intro Hser.
  destruct (serialize_ok_script _ _ Hser) as (b & st & Hb & Hst & ->).
  destruct (packs_length _ _ Hst) as [_ Hrange].
  destruct Hst as (groups & left_over & _ & Hgroups & Hlen & Hsub & Hword & Hwlen).
  unfold serialized. cbn [app skipn].
  assert (Hpow : 256 ^ Z.of_nat (List.length left_over) <= 2 ^ 248).
  { change 256 with (2 ^ 8). rewrite <- Z.pow_mul_r by lia.
    apply Z.pow_le_mono_r; lia. }
  apply Forall_app. split; [|apply Forall_app; split].
  - rewrite Hsub. apply Forall_map. eapply Forall_impl; [|exact Hgroups].
    intros g Hg. cbn beta in *.
    pose proof (int_from_bytes_big_range g) as Hr. rewrite Hg in Hr.
    change (2 ^ 248) with (256 ^ Z.of_nat 31). exact Hr.
  - destruct (pending_word_len st >? 0); constructor; [|constructor].
    rewrite Hword. pose proof (int_from_bytes_big_range left_over). lia.
  - assert (H248 : 30 < 2 ^ 248) by reflexivity.
    constructor; [lia|]. constructor; [|constructor].
    destruct (cached self); lia.
Qed.

End SerializeFacts.

(** ** Converting scripts and hashes to bytes *)

Section Conversion.
Import Py.

(** Induction along the way [bytes.fromhex] reads its argument: white
    space one character at a time, digits two at a time. *)
Lemma fromhex_ind (Q : str -> Prop) :
  Q [] ->
  (forall c s, is_space c = true -> Q s -> Q (c :: s)) ->
  (forall c, is_space c = false -> Q [c]) ->
  (forall c d s, is_space c = false -> Q s -> Q (c :: d :: s)) ->
  forall s, Q s.
Proof.
  intros Hnil Hspace Hone Hpair s.
  enough (H : Q s /\ forall c, Q (c :: s)) by apply H.
  induction s as [|d s [IH1 IH2]].
  - split; [exact Hnil|]. intro c. destruct (is_space c) eqn:E; auto.
  - split; [apply IH2|]. intro c. destruct (is_space c) eqn:E; auto.
Qed.

Lemma fromhex_raises_value_error (s : str) (e : exn) :
  bytes_fromhex s = Raise e -> e = ValueError.
Proof.
  induction s as [|c s Hc IH|c Hc|c d s Hc IH] using fromhex_ind; cbn; rewrite ?Hc.
  - discriminate.
  - exact IH.
  - destruct (hex_digit c); intro H; now inversion H.
  - destruct (hex_digit c); [|intro H; now inversion H].
    destruct (hex_digit d); [|intro H; now inversion H].
    destruct (bytes_fromhex s) as [bs|e']; cbn; [discriminate|].
    intro H. inversion H; subst. now apply IH.
Qed.

Lemma fromhex_stray_char (s : str) (c : N) :
  In c s -> stray_char c = true -> bytes_fromhex s = Raise ValueError.
Proof.
  intros Hin Hstray. unfold stray_char in Hstray.
  apply andb_true_iff in Hstray. destruct Hstray as [Hns Hnd].
  apply negb_true_iff in Hns.
  assert (Hdigit : hex_digit c = None) by (destruct (hex_digit c); [discriminate|reflexivity]).
  clear Hnd. revert Hin.
  induction s as [|x s Hx IH|x Hx|x d s Hx IH] using fromhex_ind;
    cbn [bytes_fromhex In]; rewrite ?Hx.
  - intros [].
  - intros [->|Hin]; [congruence|auto].
  - intros [->|[]]. now rewrite Hdigit.
  - intros [->|[->|Hin]].
    + now rewrite Hdigit.
    + destruct (hex_digit x); [|reflexivity]. now rewrite Hdigit.
    + destruct (hex_digit x); [|reflexivity].
      destruct (hex_digit d); [|reflexivity].
      now rewrite (IH Hin).
Qed.

(** Two digits per byte: what [bytes.fromhex] returns has half as many
    bytes as its argument has characters that are not white space. *)
Lemma fromhex_length (s : str) (bs : bytes) :
  bytes_fromhex s = Ok bs ->
  List.length (filter (fun c => negb (is_space c)) s) = (2 * List.length bs)%nat.
Proof.
  revert bs.
  induction s as [|c s Hc IH|c Hc|c d s Hc IH] using fromhex_ind;
    intro bs; cbn [bytes_fromhex filter]; rewrite ?Hc; cbn [negb].
  - intro H. now inversion H.
  - apply IH.
  - destruct (hex_digit c); discriminate.
  - destruct (hex_digit c); [|discriminate].
    destruct (hex_digit d) eqn:Hd; [|discriminate].
    destruct (bytes_fromhex s) as [rest|e]; cbn [rbind]; [|discriminate].
    intro H. inversion H; subst.
    assert (Hds : is_space d = false).
    { unfold is_space, hex_digit in *.
      destruct (N.eqb_spec d 32) as [->|_]; [discriminate|].
      destruct ((9 <=? d) && (d <=? 13))%N eqn:E; [|reflexivity].
      apply andb_true_iff in E. destruct E as [E1 E2].
      apply N.leb_le in E1, E2.
      destruct ((48 <=? d) && (d <=? 57))%N eqn:E3;
        [apply andb_true_iff in E3; destruct E3 as [E3 _]; apply N.leb_le in E3; lia|].
      destruct ((97 <=? d) && (d <=? 102))%N eqn:E4;
        [apply andb_true_iff in E4; destruct E4 as [E4 _]; apply N.leb_le in E4; lia|].
      destruct ((65 <=? d) && (d <=? 70))%N eqn:E5;
        [apply andb_true_iff in E5; destruct E5 as [E5 _]; apply N.leb_le in E5; lia|].
      discriminate. }
    rewrite Hds. cbn [negb List.length]. rewrite (IH rest eq_refl). lia.
Qed.

Lemma encode_utf8_raises_unicode_error (s : str) (e : exn) :
  encode_utf8 s = Raise e -> e = UnicodeEncodeError.
Proof.
  induction s as [|c s IH]; cbn; [discriminate|].
  unfold utf8_char.
  repeat match goal with
         | |- context [if ?b then _ else _] => destruct b
         end; cbn [rbind];
    try (intro H; now inversion H);
    destruct (encode_utf8 s); cbn [rbind]; try discriminate;
    intro H; inversion H; subst; now apply IH.
Qed.

Lemma encode_utf8_ascii (s : str) :
  Forall (fun c => (c < 128)%N) s -> encode_utf8 s = Ok (map byte_of_N s).
Proof.
  induction 1 as [|c s Hc _ IH]; [reflexivity|].
  cbn [encode_utf8 map]. unfold utf8_char.
  change 0x80%N with 128%N.
  destruct (N.ltb_spec c 128); [|lia]. cbn [rbind]. rewrite IH. reflexivity.
Qed.

Lemma byte_val_of_N (c : N) : (c < 256)%N -> byte_val (byte_of_N c) = Z.of_N c.
Proof.
  intro Hc. unfold byte_val, byte_of_N. rewrite N.mod_small by exact Hc.
  destruct (Byte.of_N c) as [b|] eqn:E.
  - apply Byte.to_of_N in E. now rewrite E.
  - apply Byte.of_N_None_iff in E. lia.
Qed.

(** A script that does not start with 0x or 0X and holds ASCII characters
    only is taken character by character: byte [k] is the code of
    character [k]. *)
Theorem script_bytes_ascii_text (pk_script : str) :
  hex_prefixed pk_script = false ->
  Forall (fun c => (c < 128)%N) pk_script ->
  exists byte_data,
    TxOut.script_bytes pk_script = Ok byte_data /\
    map byte_val byte_data = map Z.of_N pk_script.
Proof.
  intros Hprefix Hascii. exists (map byte_of_N pk_script). split.
  - unfold TxOut.script_bytes. unfold hex_prefixed in Hprefix. rewrite Hprefix.
    now apply encode_utf8_ascii.
  - rewrite map_map. apply map_ext_in. intros c Hc.
    rewrite Forall_forall in Hascii. specialize (Hascii c Hc).
    apply byte_val_of_N. lia.
Qed.

Lemma startswith_app (prefix s : str) : startswith (prefix ++ s) prefix = true.
Proof.
  induction prefix as [|c prefix IH]; [destruct s; reflexivity|].
  cbn. now rewrite N.eqb_refl, IH.
Qed.

(** A script written as 0x (or 0X) followed by the lower-case hexadecimal
    digits of a byte string, two per byte, converts to that byte string. *)
Theorem script_bytes_of_hex (byte_data : bytes) :
  TxOut.script_bytes (lit "0x" ++ ListForest.hex_of_bytes byte_data) = Ok byte_data /\
  TxOut.script_bytes (lit "0X" ++ ListForest.hex_of_bytes byte_data) = Ok byte_data.
Proof.
  unfold TxOut.script_bytes. split.
  - rewrite startswith_app. cbn [orb].
    change (skipn 2 (lit "0x" ++ ?l)) with l.
    apply Reference.fromhex_hex_of_bytes.
  - rewrite (startswith_app (lit "0X")), orb_true_r.
    change (skipn 2 (lit "0X" ++ ?l)) with l.
    apply Reference.fromhex_hex_of_bytes.
Qed.

(** A script that starts with 0x or 0X and then holds a character that is
    neither a hexadecimal digit nor white space makes [serialize] raise
    ValueError. *)
Theorem serialize_rejects_stray_char (self : TxOut.t) (c : N) :
  hex_prefixed (TxOut.pk_script self) = true ->
  In c (skipn 2 (TxOut.pk_script self)) ->
  stray_char c = true ->
  TxOut.serialize self = Raise ValueError.
Proof.
  intros Hprefix Hin Hstray. unfold TxOut.serialize.
  replace (TxOut.script_bytes (TxOut.pk_script self)) with (@Raise bytes ValueError);
    [reflexivity|].
  symmetry. unfold TxOut.script_bytes. unfold hex_prefixed in Hprefix. rewrite Hprefix.
  eapply fromhex_stray_char; eauto.
Qed.

Lemma script_bytes_raises (pk_script : str) (e : exn) :
  TxOut.script_bytes pk_script = Raise e -> e = ValueError \/ e = UnicodeEncodeError.
Proof.
  unfold TxOut.script_bytes.
  destruct (startswith pk_script (lit "0x") || startswith pk_script (lit "0X")).
  - intro H. left. eapply fromhex_raises_value_error; eauto.
  - intro H. right. eapply encode_utf8_raises_unicode_error; eauto.
Qed.

Lemma hash_tab_raises (self : OutPoint.t) (e : exn) :
  OutPoint.hash_tab self = Raise e -> e = ValueError \/ e = UnicodeEncodeError.
Proof.
  unfold OutPoint.hash_tab.
  destruct (bytes_fromhex (OutPoint.txid self)) as [b1|e1] eqn:H1; cbn [rbind].
  2:{ intro H. inversion H; subst. left. eapply fromhex_raises_value_error; eauto. }
  destruct (TxOut.serialize (OutPoint.data self)) as [ser|e2] eqn:H2; cbn [rbind].
  2:{ intro H. inversion H; subst. apply serialize_raise_script in H2.
      eapply script_bytes_raises; eauto. }
  destruct (bytes_fromhex (OutPoint.block_hash self)) as [b2|e3] eqn:H3; cbn [rbind].
  2:{ intro H. inversion H; subst. left. eapply fromhex_raises_value_error; eauto. }
  discriminate.
Qed.

End Conversion.

(** ** The sequence [OutPoint.hash] builds *)

Section HashFacts.
Import Py.

Lemma byte_val_inj (a b : byte) : byte_val a = byte_val b -> a = b.
Proof.
  intro H. rewrite <- (byte_of_Z_shift 0 a), <- (byte_of_Z_shift 0 b). now rewrite H.
Qed.

Lemma int_from_bytes_little_inj (a b : bytes) :
  List.length a = List.length b ->
  int_from_bytes_little a = int_from_bytes_little b -> a = b.
Proof.
  revert b. induction a as [|x a IH]; intros [|y b] Hlen H; try discriminate.
  - reflexivity.
  - cbn [int_from_bytes_little List.length] in *.
    pose proof (byte_val_range x). pose proof (byte_val_range y).
    assert (Hxy : byte_val x = byte_val y) by lia.
    apply byte_val_inj in Hxy. subst y. f_equal. apply IH; lia.
Qed.

Lemma int_from_bytes_little_range (bs : bytes) :
  0 <= int_from_bytes_little bs < 256 ^ Z.of_nat (List.length bs).
Proof.
  induction bs as [|b bs IH]; [cbn; lia|].
  cbn [int_from_bytes_little List.length].
  rewrite Nat2Z.inj_succ, Z.pow_succ_r by lia.
  pose proof (byte_val_range b). lia.
Qed.

Lemma halves_inj (a b : bytes) :
  List.length a = List.length b ->
  int_from_bytes_little (firstn 16 a) = int_from_bytes_little (firstn 16 b) ->
  int_from_bytes_little (skipn 16 a) = int_from_bytes_little (skipn 16 b) ->
  a = b.
Proof.
  intros Hlen Hlo Hhi.
  apply int_from_bytes_little_inj in Hlo; [|rewrite !length_firstn; lia].
  apply int_from_bytes_little_inj in Hhi; [|rewrite !length_skipn; lia].
  rewrite <- (firstn_skipn 16 a), <- (firstn_skipn 16 b). now rewrite Hlo, Hhi.
Qed.

Lemma half_is_u128 (bs : bytes) :
  (List.length bs <= 16)%nat -> 0 <= int_from_bytes_little bs < 2 ^ 128.
Proof.
  intro Hlen. pose proof (int_from_bytes_little_range bs) as Hr.
  assert (256 ^ Z.of_nat (List.length bs) <= 2 ^ 128).
  { change 256 with (2 ^ 8). rewrite <- Z.pow_mul_r by lia.
    apply Z.pow_le_mono_r; lia. }
  lia.
Qed.

(** The list [hash] builds, once the three conversions have gone through. *)
Lemma hash_tab_run (self : OutPoint.t) (txid_bytes hash_bytes : bytes)
    (prev_output : list Z) :
  bytes_fromhex (OutPoint.txid self) = Ok txid_bytes ->
  TxOut.serialize (OutPoint.data self) = Ok prev_output ->
  bytes_fromhex (OutPoint.block_hash self) = Ok hash_bytes ->
  OutPoint.hash_tab self
  = Ok ([int_from_bytes_little (firstn 16 txid_bytes);
         int_from_bytes_little (skipn 16 txid_bytes);
         OutPoint.vout self]
        ++ prev_output
        ++ [int_from_bytes_little (firstn 16 hash_bytes);
            int_from_bytes_little (skipn 16 hash_bytes);
            OutPoint.block_height self;
            OutPoint.block_time self;
            int_of_bool (OutPoint.is_coinbase self)]).
Proof.
  intros H1 H2 H3. unfold OutPoint.hash_tab.
  rewrite H1. cbn [rbind]. rewrite H2. cbn [rbind]. rewrite H3. cbn [rbind app].
  rewrite <- !app_assoc. reflexivity.
Qed.

Lemma hash_tab_parts (self : OutPoint.t) (tab : list Z) :
  OutPoint.hash_tab self = Ok tab ->
  exists txid_bytes hash_bytes prev_output,
    bytes_fromhex (OutPoint.txid self) = Ok txid_bytes /\
    TxOut.serialize (OutPoint.data self) = Ok prev_output /\
    bytes_fromhex (OutPoint.block_hash self) = Ok hash_bytes.
Proof.
  unfold OutPoint.hash_tab.
  destruct (bytes_fromhex (OutPoint.txid self)) as [b1|e]; [|discriminate].
  cbn [rbind].
  destruct (TxOut.serialize (OutPoint.data self)) as [ser|e]; [|discriminate].
  cbn [rbind].
  destruct (bytes_fromhex (OutPoint.block_hash self)) as [b2|e]; [|discriminate].
  intros _. now exists b1, b2, ser.
Qed.

(** The hashed sequence determines the outpoint: two OutPoint whose txid
    have as many bytes as each other, and likewise their block hashes, and
    which build the same sequence agree on the txid bytes, vout, value,
    script bytes, cached flag, block hash bytes, height, time and coinbase
    flag. *)
Theorem hash_tab_injective (self1 self2 : OutPoint.t)
    (txid1 txid2 hash1 hash2 : bytes) (tab : list Z) :
  bytes_fromhex (OutPoint.txid self1) = Ok txid1 ->
  bytes_fromhex (OutPoint.txid self2) = Ok txid2 ->
  List.length txid1 = List.length txid2 ->
  bytes_fromhex (OutPoint.block_hash self1) = Ok hash1 ->
  bytes_fromhex (OutPoint.block_hash self2) = Ok hash2 ->
  List.length hash1 = List.length hash2 ->
  OutPoint.hash_tab self1 = Ok tab ->
  OutPoint.hash_tab self2 = Ok tab ->
  txid1 = txid2 /\
  OutPoint.vout self1 = OutPoint.vout self2 /\
  TxOut.value (OutPoint.data self1) = TxOut.value (OutPoint.data self2) /\
  TxOut.script_bytes (TxOut.pk_script (OutPoint.data self1))
  = TxOut.script_bytes (TxOut.pk_script (OutPoint.data self2)) /\
  TxOut.cached (OutPoint.data self1) = TxOut.cached (OutPoint.data self2) /\
  hash1 = hash2 /\
  OutPoint.block_height self1 = OutPoint.block_height self2 /\
  OutPoint.block_time self1 = OutPoint.block_time self2 /\
  OutPoint.is_coinbase self1 = OutPoint.is_coinbase self2.
Proof.
  intros Ht1 Ht2 Htlen Hh1 Hh2 Hhlen Htab1 Htab2.
  destruct (hash_tab_parts _ _ Htab1) as (t1 & h1 & ser1 & Ht1' & Hser1 & Hh1').
  destruct (hash_tab_parts _ _ Htab2) as (t2 & h2 & ser2 & Ht2' & Hser2 & Hh2').
  rewrite (hash_tab_run _ _ _ _ Ht1 Hser1 Hh1) in Htab1.
  rewrite (hash_tab_run _ _ _ _ Ht2 Hser2 Hh2) in Htab2.
  rewrite <- Htab2 in Htab1. clear Htab2.
  cbn [app] in Htab1. injection Htab1 as Hlo Hhi Hvout Hrest.
  apply app_inv_tail_length in Hrest; [|reflexivity].
  destruct Hrest as [Hser Htail]. subst ser2.
  injection Htail as Hlo' Hhi' Hheight Htime Hcoinbase.
  destruct (serialize_ok_script _ _ Hser1) as (b1 & st1 & Hb1 & Hst1 & Hres1).
  destruct (serialize_ok_script _ _ Hser2) as (b2 & st2 & Hb2 & Hst2 & Hres2).
  rewrite Hres1 in Hres2.
  destruct (serialized_inj _ _ _ _ _ _ Hst1 Hst2 Hres2) as (Hvalue & Hbytes & Hcached).
  assert (Hscript : TxOut.script_bytes (TxOut.pk_script (OutPoint.data self1))
                    = TxOut.script_bytes (TxOut.pk_script (OutPoint.data self2)))
    by (rewrite Hb1, Hb2, Hbytes; reflexivity).
  repeat split; auto.
  - now apply halves_inj.
  - now apply halves_inj.
  - destruct (OutPoint.is_coinbase self1), (OutPoint.is_coinbase self2);
      cbn in Hcoinbase; congruence.
Qed.

(** "2x u128": when the txid and the block hash have at most 32 bytes, the
    sequence starts with two integers below 2^128 and the vout, and ends
    with two integers below 2^128, the height, the time and the coinbase
    flag, the serialized output standing in between. *)
Theorem hash_tab_halves_are_u128 (self : OutPoint.t)
    (txid_bytes hash_bytes : bytes) (tab : list Z) :
  bytes_fromhex (OutPoint.txid self) = Ok txid_bytes ->
  (List.length txid_bytes <= 32)%nat ->
  bytes_fromhex (OutPoint.block_hash self) = Ok hash_bytes ->
  (List.length hash_bytes <= 32)%nat ->
  OutPoint.hash_tab self = Ok tab ->
  exists lo hi prev_output lo' hi',
    TxOut.serialize (OutPoint.data self) = Ok prev_output /\
    tab = [lo; hi; OutPoint.vout self] ++ prev_output
          ++ [lo'; hi'; OutPoint.block_height self; OutPoint.block_time self;
              if OutPoint.is_coinbase self then 1 else 0] /\
    0 <= lo < 2 ^ 128 /\ 0 <= hi < 2 ^ 128 /\
    0 <= lo' < 2 ^ 128 /\ 0 <= hi' < 2 ^ 128.
Proof.
  intros Ht Htlen Hh Hhlen Htab.
  destruct (hash_tab_parts _ _ Htab) as (t & h & ser & _ & Hser & _).
  rewrite (hash_tab_run _ _ _ _ Ht Hser Hh) in Htab. unfold int_of_bool in Htab.
  exists (int_from_bytes_little (firstn 16 txid_bytes)),
    (int_from_bytes_little (skipn 16 txid_bytes)), ser,
    (int_from_bytes_little (firstn 16 hash_bytes)),
    (int_from_bytes_little (skipn 16 hash_bytes)).
  split; [exact Hser|]. split; [congruence|].
  repeat split; apply half_is_u128; rewrite ?length_firstn, ?length_skipn; lia.
Qed.

(** When [OutPoint.hash] raises, it is with ValueError or
    UnicodeEncodeError, and before anything was hashed: no call has been
    made and the accumulator is as it was. *)
Theorem hash_raises_before_hashing {P : Poseidon} {U : Utreexo}
    (self : OutPoint.t) (w w' : world) (e : exn) :
  OutPoint.hash self w = (Raise e, w') ->
  w' = w /\ (e = ValueError \/ e = UnicodeEncodeError).
Proof.
  unfold OutPoint.hash, mbind, lift, call_poseidon, mret.
  destruct (OutPoint.hash_tab self) as [tab|e'] eqn:Htab; [discriminate|].
  intro H. inversion H; subst. split; [reflexivity|].
  eapply hash_tab_raises; eauto.
Qed.

(** [format_node] returns a non-negative integer below 16 to the number
    of characters that follow the two-character prefix: a value of 64
    digits gives an integer below 2^256. *)
Theorem format_node_bounded (node : UtreexoNode) (v : Z) :
  format_node node = Ok v ->
  0 <= v < 16 ^ Z.of_nat (List.length (skipn 2 (val node))).
Proof.
  unfold format_node.
  destruct (bytes_fromhex (skipn 2 (val node))) as [bs|e] eqn:Hbs; [|discriminate].
  cbn [rbind]. intro H. injection H as <-.
  pose proof (int_from_bytes_big_range bs) as Hr.
  pose proof (fromhex_length _ _ Hbs) as Hlen.
  pose proof (filter_length_le (fun c => negb (is_space c)) (skipn 2 (val node))) as Hle.
  assert (256 ^ Z.of_nat (List.length bs)
          <= 16 ^ Z.of_nat (List.length (skipn 2 (val node)))).
  { change 256 with (16 ^ 2). rewrite <- Z.pow_mul_r by lia.
    apply Z.pow_le_mono_r; lia. }
  lia.
Qed.

End HashFacts.

(** ** Snapshots, inputs and outputs *)

Section ReplayFacts.
Context {P : Poseidon} {U : Utreexo}.
Import UtreexoData.



Lemma handle_txout_loop_adds (outputs : list Json.output) (i : Z)
    block_hash block_height block_time txid is_coinbase (w w' : world) :
  handle_txout_loop i outputs block_hash block_height block_time txid is_coinbase w
  = (Ok tt, w') ->
  exists tabs,
    Forall2
      (fun p tab =>
         OutPoint.hash_tab
           (OutPoint.mk txid (fst p)
              (TxOut.mk (Json.value (snd p)) (Json.pk_script (snd p)) (Json.cached (snd p)))
              block_height block_time block_hash is_coinbase)
         = Ok tab)
      (filter (fun p => negb (Json.cached (snd p))) (enumerate_from i outputs)) tabs /\
    calls w'
    = calls w ++ flat_map (fun tab => [Compress tab; Add (poseidon_hash_many tab)]) tabs /\
    utreexo w' = fold_left add (map poseidon_hash_many tabs) (utreexo w).
Proof.
  revert i w. induction outputs as [|output outputs IH]; intros i w H.
  - cbn in H. injection H as <-. exists []. cbn. rewrite app_nil_r.
    repeat split. constructor.
  - rewrite handle_txout_loop_cons in H. cbn [enumerate_from filter snd].
    destruct (Json.cached output) eqn:Hc; cbn [negb]; [now apply IH|].
    match type of H with
    | context [OutPoint.hash_tab ?o] => destruct (OutPoint.hash_tab o) as [tab|e] eqn:Htab
    end; [|discriminate].
    cbn zeta in H. destruct (IH _ _ H) as (tabs & Htabs & Hcalls & Hacc).
    cbn [calls utreexo] in *.
    exists (tab :: tabs). split; [|split].
    + constructor; [|exact Htabs]. cbn [fst snd]. rewrite Hc. exact Htab.
    + rewrite Hcalls, <- app_assoc. reflexivity.
    + exact Hacc.
Qed.

(** What [handle_txout] does when it returns: for every output that is
    not cached, in order, one hash and one [add] of the OutPoint whose vout
    is the position of the output in the whole list, cached ones counted,
    and nothing else. *)
Theorem handle_txout_adds_live_outputs (outputs : list Json.output)
    block_hash block_height block_time txid is_coinbase (w w' : world) :
  handle_txout outputs block_hash block_height block_time txid is_coinbase w
  = (Ok tt, w') ->
  exists tabs,
    Forall2
      (fun p tab =>
         OutPoint.hash_tab
           (OutPoint.mk txid (fst p)
              (TxOut.mk (Json.value (snd p)) (Json.pk_script (snd p)) (Json.cached (snd p)))
              block_height block_time block_hash is_coinbase)
         = Ok tab)
      (live_outputs outputs) tabs /\
    calls w'
    = calls w ++ flat_map (fun tab => [Compress tab; Add (poseidon_hash_many tab)]) tabs /\
    utreexo w' = fold_left add (map poseidon_hash_many tabs) (utreexo w).
Proof.
  apply handle_txout_loop_adds.
Qed.

Lemma handle_txin_loop_count (inputs : list Json.input)
    (proofs proofs' : list proof_json) (w w' : world) :
  handle_txin_loop inputs proofs w = (Ok proofs', w') ->
  exists new seg,
    proofs' = proofs ++ new /\
    calls w' = calls w ++ seg /\
    List.length new = List.length (live_inputs inputs) /\
    List.length (removals seg) = List.length (live_inputs inputs).
Proof.
  revert proofs w. induction inputs as [|input inputs IH]; intros proofs w H.
  - cbn in H. injection H as <- <-. exists [], []. rewrite !app_nil_r. auto.
  - rewrite handle_txin_loop_cons in H. cbn [live_inputs filter].
    fold (live_inputs inputs).
    destruct (Json.cached (Json.data (Json.previous_output input))); cbn [negb];
      [now apply IH|].
    destruct (OutPoint.hash_tab _) as [tab|e]; [|discriminate]. cbn zeta in H.
    destruct (delete (utreexo w) (poseidon_hash_many tab))
      as [[[proof leaf_index] u']|]; [|discriminate].
    destruct (rmap format_node proof) as [formatted|e]; [|discriminate].
    destruct (IH _ _ H) as (new & seg & -> & Hcalls & Hlen & Hrem).
    cbn [calls] in Hcalls.
    exists (mk_proof formatted leaf_index :: new),
      ([Compress tab; Delete (poseidon_hash_many tab) (Some (proof, leaf_index))] ++ seg).
    split; [now rewrite <- app_assoc|].
    split; [now rewrite Hcalls, <- app_assoc|].
    split; cbn [app removals List.length]; lia.
Qed.

(** [handle_txin] returns one proof per input whose referenced output is
    not cached, and has made as many successful [delete] calls. *)
Theorem handle_txin_one_proof_per_live_input (inputs : list Json.input)
    (proofs : list proof_json) (w w' : world) :
  handle_txin inputs w = (Ok proofs, w') ->
  exists seg,
    calls w' = calls w ++ seg /\
    List.length proofs = List.length (live_inputs inputs) /\
    List.length (removals seg) = List.length (live_inputs inputs).
Proof.
  intro H.
  destruct (handle_txin_loop_count _ _ _ _ _ H) as (new & seg & -> & Hcalls & Hlen & Hrem).
  exists seg. auto.
Qed.

End ReplayFacts.

(** ** Sequences of blocks *)

Section SequenceFacts.
Context {P : Poseidon} {U : Utreexo}.
Import UtreexoData.

(** The index and the length only matter through the test for the last
    block. *)
Lemma remove_stxos_same_test (len1 idx1 len2 idx2 i : Z)
    (items : list (Py.str * Json.tx)) (proofs : list proof_json) (w : world) :
  (idx1 =? len1 - 1) = (idx2 =? len2 - 1) ->
  remove_stxos len1 idx1 i items proofs w = remove_stxos len2 idx2 i items proofs w.
Proof.
  intro Htest. revert i proofs w.
  induction items as [|[txid tx] items IH]; intros i proofs w; [reflexivity|].
  cbn [remove_stxos]. destruct (negb (i =? 0)); [|apply IH].
  rewrite !mbind_run. destruct (handle_txin (Json.inputs tx) w) as [[inc|e] w1];
    [|reflexivity].
  rewrite Htest. apply IH.
Qed.

Lemma block_body_same_test (len1 idx1 len2 idx2 : Z) (block : Block.t)
    (state : option snapshot) (proofs : list proof_json) (w : world) :
  (idx1 =? len1 - 1) = (idx2 =? len2 - 1) ->
  block_body len1 idx1 block state proofs w = block_body len2 idx2 block state proofs w.
Proof.
  intro Htest. rewrite !block_body_run, Htest.
  now rewrite (remove_stxos_same_test len1 idx1 len2 idx2 _ _ _ _ Htest).
Qed.

Lemma blocks_loop_shift (k len_blocks block_idx : Z) (blocks : list Block.t)
    (state : option snapshot) (proofs : list proof_json) (w : world) :
  blocks_loop (len_blocks + k) (block_idx + k) blocks state proofs w
  = blocks_loop len_blocks block_idx blocks state proofs w.
Proof.
  revert block_idx state proofs w.
  induction blocks as [|block blocks IH]; intros block_idx state proofs w; [reflexivity|].
  cbn [blocks_loop]. rewrite !mbind_run.
  rewrite (block_body_same_test (len_blocks + k) (block_idx + k) len_blocks block_idx).
  2:{ destruct (Z.eqb_spec (block_idx + k) (len_blocks + k - 1));
        destruct (Z.eqb_spec block_idx (len_blocks - 1)); lia || reflexivity. }
  destruct (block_body len_blocks block_idx block state proofs w)
    as [[[state1 proofs1]|e] w1]; [|reflexivity].
  replace (block_idx + k + 1) with (block_idx + 1 + k) by lia. apply IH.
Qed.

(** What a phase does to the accumulator does not depend on the block
    being the last one. *)
Lemma remove_stxos_replay (len1 idx1 len2 idx2 i : Z)
    (items : list (Py.str * Json.tx)) (proofs1 proofs2 proofs' : list proof_json)
    (w w' : world) :
  (idx2 =? len2 - 1) = false ->
  remove_stxos len1 idx1 i items proofs1 w = (Ok proofs', w') ->
  remove_stxos len2 idx2 i items proofs2 w = (Ok proofs2, w').
Proof.
  intro Htest. revert i proofs1 proofs2 w.
  induction items as [|[txid tx] items IH]; intros i proofs1 proofs2 w H.
  - cbn in *. now inversion H.
  - cbn [remove_stxos] in *. destruct (negb (i =? 0)); [|eapply IH; eauto].
    rewrite mbind_run in *.
    destruct (handle_txin (Json.inputs tx) w) as [[inc|e] w1]; [|discriminate].
    rewrite Htest. eapply IH; eauto.
Qed.

Lemma block_body_replay (len1 idx1 len2 idx2 : Z) (block : Block.t)
    (state1 state2 : option snapshot) (proofs1 proofs2 : list proof_json)
    (w w' : world) r :
  (idx2 =? len2 - 1) = false ->
  block_body len1 idx1 block state1 proofs1 w = (Ok r, w') ->
  block_body len2 idx2 block state2 proofs2 w = (Ok (state2, proofs2), w').
Proof.
  intros Htest H. rewrite block_body_run in *. rewrite Htest.
  destruct (if idx1 =? len1 - 1
            then let? s := fst (snapshot_state w) in Ok (Some s)
            else Ok state1) as [state'|e]; [|discriminate].
  destruct (remove_stxos len1 idx1 0 (Block.data block) proofs1 w)
    as [[proofs'|e] w1] eqn:Hin; [|discriminate].
  rewrite (remove_stxos_replay _ _ _ _ _ _ _ proofs2 _ _ _ Htest Hin).
  destruct (add_utxos block 0 (Block.data block) w1) as [[[]|e] w2]; [|discriminate].
  now inversion H.
Qed.

Lemma blocks_loop_replay (len1 len2 : Z) (blocks : list Block.t) (idx1 idx2 : Z)
    (state1 state2 : option snapshot) (proofs1 proofs2 : list proof_json)
    (w w' : world) r :
  idx2 + Z.of_nat (List.length blocks) <= len2 - 1 ->
  blocks_loop len1 idx1 blocks state1 proofs1 w = (Ok r, w') ->
  blocks_loop len2 idx2 blocks state2 proofs2 w = (Ok (state2, proofs2), w').
Proof.
  revert idx1 idx2 state1 proofs1 w r.
  induction blocks as [|block blocks IH]; intros idx1 idx2 state1 proofs1 w r Hidx H.
  - cbn in *. now inversion H.
  - cbn [blocks_loop List.length] in *. rewrite mbind_run in *.
    destruct (block_body len1 idx1 block state1 proofs1 w)
      as [[[state' proofs']|e] w1] eqn:Hbody; [|discriminate].
    rewrite (block_body_replay _ _ len2 idx2 _ _ state2 _ proofs2 _ _ _
               ltac:(apply Z.eqb_neq; lia) Hbody).
    eapply IH; [|exact H]. lia.
Qed.

(** Replaying in two calls: once [apply_blocks] has returned on a first
    run of blocks, calling it on the blocks that follow (at least one)
    returns what a single call on the whole sequence returns from the
    start, with the same accumulator and the same calls at the end. *)
Theorem apply_blocks_split (first_run second_run : list Block.t)
    (w w1 : world) (r : report) :
  apply_blocks first_run w = (Ok r, w1) ->
  second_run <> [] ->
  apply_blocks (first_run ++ second_run) w = apply_blocks second_run w1.
Proof.
  intros Hfirst Hsecond. unfold apply_blocks in *. rewrite mbind_run in *.
  destruct (blocks_loop (Z.of_nat (List.length first_run)) 0 first_run None [] w)
    as [[[state1 proofs1]|e] w0] eqn:Hloop; [|discriminate].
  rewrite mbind_run in Hfirst. pose proof (snapshot_state_reads w0) as Hread.
  destruct (snapshot_state w0) as [[s|e] w0']; [|discriminate].
  cbn [fst] in Hread. injection Hread as Hw0. subst w0'.
  injection Hfirst as _ Hw. subst w0.
  rewrite blocks_loop_app.
  assert (Hlen : List.length second_run <> 0%nat) by (destruct second_run; cbn; congruence).
  assert (Hidx : 0 + Z.of_nat (List.length first_run)
                 <= Z.of_nat (List.length (first_run ++ second_run)) - 1)
    by (rewrite length_app; lia).
  rewrite (blocks_loop_replay _ _ _ _ _ _ None _ [] _ _ _ Hidx Hloop).
  rewrite length_app, Nat2Z.inj_add.
  rewrite (Z.add_comm (Z.of_nat (List.length first_run))).
  rewrite (Z.add_comm 0 (Z.of_nat (List.length first_run))).
  replace (Z.of_nat (List.length first_run) + 0)
    with (0 + Z.of_nat (List.length first_run)) by lia.
  rewrite blocks_loop_shift. reflexivity.
Qed.

Lemma block_body_cached (len_blocks block_idx : Z) (block : Block.t)
    (state : option snapshot) (proofs : list proof_json) (w : world) :
  block_all_cached block = true ->
  block_body len_blocks block_idx block state proofs w
  = (if block_idx =? len_blocks - 1
     then let? s := fst (snapshot_state w) in Ok (Some s, proofs)
     else Ok (state, proofs),
     w).
Proof.
  intro H. unfold block_all_cached in H. rewrite block_body_run.
  rewrite (remove_stxos_cached len_blocks block_idx 0 _ proofs w H).
  rewrite (add_utxos_cached block 0 _ w H).
  destruct (block_idx =? len_blocks - 1); [|reflexivity].
  destruct (fst (snapshot_state w)); reflexivity.
Qed.

Lemma blocks_loop_cached (len_blocks : Z) (blocks : list Block.t) (block_idx : Z)
    (state : option snapshot) (proofs : list proof_json) (w : world) :
  block_idx + Z.of_nat (List.length blocks) = len_blocks ->
  forallb block_all_cached blocks = true ->
  blocks_loop len_blocks block_idx blocks state proofs w
  = (match blocks with
     | [] => Ok (state, proofs)
     | _ :: _ => let? s := fst (snapshot_state w) in Ok (Some s, proofs)
     end, w).
Proof.
  revert block_idx state.
  induction blocks as [|block blocks IH]; intros block_idx state Hlen Hall; [reflexivity|].
  cbn [forallb] in Hall. apply andb_true_iff in Hall. destruct Hall as [Hblock Hall].
  cbn [blocks_loop List.length] in *. rewrite mbind_run, (block_body_cached _ _ _ _ _ _ Hblock).
  destruct blocks as [|block' blocks].
  - replace (block_idx =? len_blocks - 1) with true by (symmetry; apply Z.eqb_eq; cbn in Hlen; lia).
    destruct (fst (snapshot_state w)); reflexivity.
  - replace (block_idx =? len_blocks - 1) with false
      by (symmetry; apply Z.eqb_neq; cbn [List.length] in Hlen; lia).
    rewrite IH; [reflexivity| |exact Hall].
    cbn [List.length] in *. lia.
Qed.

(** A sequence of blocks in which every referenced and every created
    output is cached is replayed without a single call: [apply_blocks]
    only reads the accumulator, returns its snapshot both as [state] (when
    there is a block) and as [expected], and no proof. *)
Theorem apply_blocks_all_cached (blocks : list Block.t) (w : world) :
  forallb block_all_cached blocks = true ->
  apply_blocks blocks w
  = (let? s := fst (snapshot_state w) in
     Ok (mk_report (match blocks with [] => None | _ :: _ => Some s end) [] s),
     w).
Proof.
  intro Hall. unfold apply_blocks.
  rewrite mbind_run,
    (blocks_loop_cached (Z.of_nat (List.length blocks)) blocks 0 None [] w
       ltac:(lia) Hall).
  pose proof (snapshot_state_reads w) as Hread.
  destruct blocks as [|block blocks].
  - rewrite mbind_run. destruct (snapshot_state w) as [[s|e] w0];
      cbn [fst] in *; injection Hread as ->; reflexivity.
  - destruct (snapshot_state w) as [[s|e] w0] eqn:Hs;
      cbn [fst] in *; injection Hread as ->; cbn [rbind]; [|reflexivity].
    rewrite mbind_run, Hs. reflexivity.
Qed.

(** *** The exceptions that can escape *)













End SequenceFacts.

(** ** Further runs on the sample blocks *)

Module MoreRuns.
Import UtreexoData Scenario.

#[local] Existing Instance Reference.poseidon.
#[local] Existing Instance Reference.utreexo.

(** A script with an odd number of digits. *)
Lemma serialize_fails_with_script_witness :
  let self := TxOut.mk 1 (Py.lit "0x76a") false in
  TxOut.script_bytes (TxOut.pk_script self) = Raise ValueError /\
  TxOut.serialize self = Raise ValueError.
Proof.
  intro self. split; [reflexivity|].
  apply (serialize_fails_with_script self ValueError). reflexivity.
Defined.

(** The same script in upper and in lower case. *)
Lemma serialize_injective_witness :
  let self1 := TxOut.mk 5000000000 (Py.lit "0x76A914") false in
  let self2 := TxOut.mk 5000000000 (Py.lit "0x76a914") false in
  TxOut.serialize self1 = Ok [5000000000; 0; 0x76a914; 3; 0] /\
  TxOut.serialize self2 = Ok [5000000000; 0; 0x76a914; 3; 0] /\
  TxOut.script_bytes (TxOut.pk_script self1) = TxOut.script_bytes (TxOut.pk_script self2).
Proof.
  intros self1 self2.
  assert (H1 : TxOut.serialize self1 = Ok [5000000000; 0; 0x76a914; 3; 0]) by reflexivity.
  assert (H2 : TxOut.serialize self2 = Ok [5000000000; 0; 0x76a914; 3; 0]) by reflexivity.
  split; [exact H1|]. split; [exact H2|].
  apply (serialize_injective self1 self2 _ H1 H2).
Defined.

(** A script of three bytes: five elements. *)
Lemma serialize_length_witness :
  let self := TxOut.mk 5000000000 (Py.lit "0x76a914") false in
  TxOut.script_bytes (TxOut.pk_script self) = Ok [x76; xa9; x14] /\
  TxOut.serialize self = Ok [5000000000; 0; 0x76a914; 3; 0] /\
  Z.of_nat (List.length [5000000000; 0; 0x76a914; 3; 0]) = 4 + (Z.of_nat 3 + 30) / 31.
Proof.
  intro self. split; [reflexivity|]. split; [reflexivity|].
  exact (serialize_length self [x76; xa9; x14] _ eq_refl eq_refl).
Defined.

Lemma serialize_script_part_bounded_witness :
  let self := TxOut.mk (2 ^ 300) (Py.lit "0x76a914") true in
  TxOut.serialize self = Ok [2 ^ 300; 0; 0x76a914; 3; 1] /\
  Forall (fun x => 0 <= x < 2 ^ 248) [0x76a914; 3; 1].
Proof.
  intro self. split; [reflexivity|].
  exact (serialize_script_part_bounded self _ eq_refl).
Defined.

Lemma script_bytes_ascii_text_witness :
  hex_prefixed (Py.lit "OP_RETURN") = false /\
  Forall (fun c => (c < 128)%N) (Py.lit "OP_RETURN") /\
  exists byte_data,
    TxOut.script_bytes (Py.lit "OP_RETURN") = Ok byte_data /\
    map Py.byte_val byte_data = map Z.of_N (Py.lit "OP_RETURN").
Proof.
  assert (H : Forall (fun c => (c < 128)%N) (Py.lit "OP_RETURN"))
    by (repeat constructor).
  split; [reflexivity|]. split; [exact H|].
  exact (script_bytes_ascii_text (Py.lit "OP_RETURN") eq_refl H).
Defined.

Lemma serialize_rejects_stray_char_witness :
  let self := TxOut.mk 1 (Py.lit "0x76zz") false in
  hex_prefixed (TxOut.pk_script self) = true /\
  In 122%N (skipn 2 (TxOut.pk_script self)) /\
  stray_char 122 = true /\
  TxOut.serialize self = Raise ValueError.
Proof.
  intro self.
  assert (Hin : In 122%N (skipn 2 (TxOut.pk_script self))) by (cbn; auto).
  split; [reflexivity|]. split; [exact Hin|]. split; [reflexivity|].
  exact (serialize_rejects_stray_char self 122 eq_refl Hin eq_refl).
Defined.

(** The outpoint of block 1, with its txid in lower and in upper case. *)
Definition outpoint_1_upper : OutPoint.t :=
  OutPoint.mk
    (Py.lit "0E3E2357E806B6CDB1F70B54C3A3A17B6714EE1F0E68BEBB44A74B1EFD512098")
    0 (TxOut.mk 5000000000 (Py.lit "0x0000000000") false)
    1 1231469665 block_hash_1 true.

Lemma hash_tab_injective_witness :
  let self1 := spent_outpoint outpoint_1 in
  let self2 := outpoint_1_upper in
  OutPoint.txid self1 <> OutPoint.txid self2 /\
  OutPoint.hash_tab self1 = OutPoint.hash_tab self2 /\
  bytes_of_hex (OutPoint.txid self1) = bytes_of_hex (OutPoint.txid self2).
Proof.
  intros self1 self2.
  assert (Ht1 : Py.bytes_fromhex (OutPoint.txid self1) = Ok (bytes_of_hex (OutPoint.txid self1)))
    by (vm_compute; reflexivity).
  assert (Ht2 : Py.bytes_fromhex (OutPoint.txid self2) = Ok (bytes_of_hex (OutPoint.txid self2)))
    by (vm_compute; reflexivity).
  assert (Hh : Py.bytes_fromhex block_hash_1 = Ok (bytes_of_hex block_hash_1))
    by (vm_compute; reflexivity).
  eassert (Htab1 : OutPoint.hash_tab self1 = Ok _) by (vm_compute; reflexivity).
  assert (Htab2 : OutPoint.hash_tab self2 = OutPoint.hash_tab self1)
    by (vm_compute; reflexivity).
  split; [vm_compute; discriminate|]. split; [now rewrite Htab2|].
  rewrite Htab1 in Htab2.
  exact (proj1 (hash_tab_injective self1 self2 _ _ _ _ _
                  Ht1 Ht2 eq_refl Hh Hh eq_refl Htab1 Htab2)).
Defined.

Lemma hash_tab_halves_are_u128_witness :
  let self := spent_outpoint outpoint_1 in
  List.length (bytes_of_hex txid_1) = 32%nat /\
  List.length (bytes_of_hex block_hash_1) = 32%nat /\
  exists tab lo hi prev_output lo' hi',
    OutPoint.hash_tab self = Ok tab /\
    tab = [lo; hi; 0] ++ prev_output ++ [lo'; hi'; 1; 1231469665; 1] /\
    0 <= lo < 2 ^ 128 /\ 0 <= hi < 2 ^ 128 /\
    0 <= lo' < 2 ^ 128 /\ 0 <= hi' < 2 ^ 128.
Proof.
  intro self. split; [reflexivity|]. split; [reflexivity|].
  assert (Ht : Py.bytes_fromhex (OutPoint.txid self) = Ok (bytes_of_hex txid_1))
    by (vm_compute; reflexivity).
  assert (Hh : Py.bytes_fromhex (OutPoint.block_hash self) = Ok (bytes_of_hex block_hash_1))
    by (vm_compute; reflexivity).
  eassert (Htab : OutPoint.hash_tab self = Ok _) by (vm_compute; reflexivity).
  destruct (hash_tab_halves_are_u128 self _ _ _ Ht ltac:(vm_compute; lia)
              Hh ltac:(vm_compute; lia) Htab)
    as (lo & hi & prev_output & lo' & hi' & _ & Hshape & Hbounds).
  eexists _, lo, hi, prev_output, lo', hi'.
  split; [exact Htab|]. split; [exact Hshape|]. exact Hbounds.
Defined.

(** An outpoint whose txid is not hexadecimal. *)
Lemma hash_raises_before_hashing_witness :
  let self := OutPoint.mk (Py.lit "xyz") 0 (TxOut.mk 1 (Py.lit "0x00") false)
                1 1 block_hash_1 false in
  OutPoint.hash self Reference.genesis = (Raise ValueError, Reference.genesis) /\
  (ValueError = ValueError \/ ValueError = UnicodeEncodeError).
Proof.
  intro self.
  assert (H : OutPoint.hash self Reference.genesis = (Raise ValueError, Reference.genesis))
    by reflexivity.
  split; [exact H|].
  exact (proj2 (hash_raises_before_hashing self _ _ _ H)).
Defined.

Lemma format_node_bounded_witness :
  format_node (mk_node (Py.lit "0x00ff")) = Ok 255 /\
  0 <= 255 < 16 ^ Z.of_nat 4.
Proof.
  split; [reflexivity|].
  exact (format_node_bounded (mk_node (Py.lit "0x00ff")) 255 eq_refl).
Defined.

(** The accumulator after block 1. *)
Definition after_block_1 : world := snd (apply_blocks [block_1] Reference.genesis).


(** A cached output, then the output of block 1: the second has vout 1. *)
Lemma handle_txout_adds_live_outputs_witness :
  live_outputs [cached_output; output_1] = [(1, output_1)] /\
  exists w' tabs,
    handle_txout [cached_output; output_1] block_hash_1 1 1231469665 txid_1 true
      Reference.genesis = (Ok tt, w') /\
    List.length tabs = 1%nat /\
    calls w' = flat_map (fun tab => [Compress tab; Add (poseidon_hash_many tab)]) tabs.
Proof.
  split; [reflexivity|].
  assert (H : value_of
                (fst (handle_txout [cached_output; output_1] block_hash_1 1 1231469665
                        txid_1 true Reference.genesis)) = Some tt)
    by (vm_compute; reflexivity).
  destruct (handle_txout [cached_output; output_1] block_hash_1 1 1231469665
              txid_1 true Reference.genesis) as [[[]|e] w'] eqn:Hrun; [|discriminate].
  destruct (handle_txout_adds_live_outputs _ _ _ _ _ _ _ _ Hrun)
    as (tabs & Htabs & Hcalls & _).
  exists w', tabs. split; [reflexivity|]. split; [|exact Hcalls].
  apply Forall2_length in Htabs. now rewrite <- Htabs.
Defined.

(** The input that spends the output of block 1, after block 1. *)
Lemma handle_txin_one_proof_per_live_input_witness :
  exists proofs w' seg,
    handle_txin (Json.inputs spend_1) after_block_1 = (Ok proofs, w') /\
    calls w' = calls after_block_1 ++ seg /\
    List.length proofs = 1%nat /\
    List.length (removals seg) = 1%nat.
Proof.
  assert (H : option_map (fun _ => tt)
                (value_of (fst (handle_txin (Json.inputs spend_1) after_block_1)))
              = Some tt) by (vm_compute; reflexivity).
  destruct (handle_txin (Json.inputs spend_1) after_block_1)
    as [[proofs|e] w'] eqn:Hrun; [|discriminate].
  destruct (handle_txin_one_proof_per_live_input _ _ _ _ Hrun)
    as (seg & Hcalls & Hlen & Hrem).
  exists proofs, w', seg. auto.
Defined.

(** Blocks 0 and 1 in a first call, block 2 in a second one. *)
Lemma apply_blocks_split_witness :
  exists r w1,
    apply_blocks [block_0; block_1] Reference.genesis = (Ok r, w1) /\
    apply_blocks ([block_0; block_1] ++ [block_2]) Reference.genesis
    = apply_blocks [block_2] w1.
Proof.
  assert (H : option_map (fun _ => tt)
                (value_of (fst (apply_blocks [block_0; block_1] Reference.genesis)))
              = Some tt) by (vm_compute; reflexivity).
  destruct (apply_blocks [block_0; block_1] Reference.genesis)
    as [[r|e] w1] eqn:Hrun; [|discriminate].
  exists r, w1. split; [reflexivity|].
  apply (apply_blocks_split _ _ _ _ _ Hrun). discriminate.
Defined.

Lemma apply_blocks_all_cached_witness :
  forallb block_all_cached [block_cached; block_cached] = true /\
  apply_blocks [block_cached; block_cached] Reference.genesis
  = (Ok (mk_report (Some (mk_snapshot [] 0)) [] (mk_snapshot [] 0)), Reference.genesis).
Proof.
  split; [reflexivity|].
  exact (apply_blocks_all_cached [block_cached; block_cached] Reference.genesis eq_refl).
Defined.


End MoreRuns.
